(** * RecycleRoute: the map screen ([src/app/(tabs)/map.tsx])

    A shallow embedding of the [Map] component: its pure helpers (query
    construction, response mapping, detail merge, description rendering),
    its event handlers and effects, and the render/commit cycle that runs
    the effects whose dependencies changed. *)

From Stdlib Require Import List String Ascii NArith ZArith QArith Bool Lia.
From Stdlib Require Import Permutation.
Import ListNotations.
Local Open Scope list_scope.

(** ** JavaScript strings

    A JavaScript string is a sequence of UTF-16 code units; [===] on strings
    is equality of these sequences, and a string is truthy iff it is not
    empty. *)

Module JsString.

Definition code_unit := N.
Definition jsstring := list code_unit.

(** String literals of the source, written as Rocq strings. *)
Definition js (s : string) : jsstring :=
  map N_of_ascii (list_ascii_of_string s).

Definition eqb (a b : jsstring) : bool :=
  if list_eq_dec N.eq_dec a b then true else false.

Definition truthy (s : jsstring) : bool :=
  match s with [] => false | _ :: _ => true end.

(** [a || b] on strings. *)
Definition or_else (a b : jsstring) : jsstring :=
  if truthy a then a else b.

(** ECMAScript WhiteSpace and LineTerminator code points, the ones
    [String.prototype.trim] strips. *)
Definition isWhiteSpace (c : code_unit) : bool :=
  existsb (N.eqb c)
    [ 9; 10; 11; 12; 13; 32; 160; 5760;
      8192; 8193; 8194; 8195; 8196; 8197; 8198; 8199; 8200; 8201; 8202;
      8232; 8233; 8239; 8287; 12288; 65279 ]%N.

Fixpoint trimStart (s : jsstring) : jsstring :=
  match s with
  | [] => []
  | c :: r => if isWhiteSpace c then trimStart r else s
  end.

Definition trimEnd (s : jsstring) : jsstring := rev (trimStart (rev s)).

Definition trim (s : jsstring) : jsstring := trimEnd (trimStart s).

(** [s.split(sep)] for a one-code-unit separator: every occurrence of the
    separator cuts, so the result is never empty and may hold empty pieces. *)
Fixpoint split (sep : code_unit) (s : jsstring) : list jsstring :=
  match s with
  | [] => [[]]
  | c :: r =>
      if N.eqb c sep then [] :: split sep r
      else match split sep r with
           | w :: ws => (c :: w) :: ws
           | [] => [[c]]
           end
  end.

(** [pieces.join(sep)]. *)
Fixpoint join (sep : jsstring) (pieces : list jsstring) : jsstring :=
  match pieces with
  | [] => []
  | [w] => w
  | w :: ws => w ++ sep ++ join sep ws
  end.

(** [a.slice(0, n)] on arrays, for [0 <= n]. *)
Definition slice0 {A} (n : nat) (a : list A) : list A := firstn n a.

Definition space : code_unit := 32%N.

End JsString.

Import JsString.

(** ** Data model *)

(** JavaScript numbers are only stored and forwarded by this screen (no
    arithmetic is done on them), so rationals stand for them. *)
Definition number := Q.

Record Region := mkRegion {
  latitude : number;
  longitude : number;
  latitudeDelta : number;
  longitudeDelta : number;
}.

Record OpeningHours := mkOpeningHours {
  open_now : bool;
  weekday_text : list jsstring;
}.

(** [interface RecyclingCenter]; optional fields are options. *)
Record RecyclingCenter := mkCenter {
  id : jsstring;
  name : jsstring;
  c_latitude : number;
  c_longitude : number;
  address : option jsstring;
  openingHours : option OpeningHours;
  rating : option number;
  description : option jsstring;
}.

(** One element of [response.data.results] of the nearby search. *)
Record Place := mkPlace {
  place_id : jsstring;
  p_name : jsstring;
  geometry_location_lat : number;
  geometry_location_lng : number;
  vicinity : option jsstring;
}.

Record Review := mkReview { text : option jsstring }.

(** [response.data.result] of the details call. *)
Record PlaceDetails := mkDetails {
  opening_hours : option OpeningHours;
  d_rating : option number;
  reviews : option (list Review);
}.

(** ** Pure parts of the Places client *)

Definition defaultKeyword : jsstring :=
  js "recycling center|waste management|recyclable materials|recycle center".

(** Lines 108-111 of [fetchRecyclingCenters]: the [keyword] parameter sent
    to the nearby-search endpoint. *)
Definition effectiveQuery (keyword : jsstring) : jsstring :=
  let trimmedKeyword := trim keyword in
  if truthy trimmedKeyword
  then trimmedKeyword ++ js " recycling"
  else defaultKeyword.

Definition addressPlaceholder : jsstring := js "Address not available".

(** [place.vicinity || 'Address not available']. *)
Definition addressOf (v : option jsstring) : jsstring :=
  match v with
  | Some s => or_else s addressPlaceholder
  | None => addressPlaceholder
  end.

(** Lines 128-134: the object literal built for one result. *)
Definition toCenter (place : Place) : RecyclingCenter :=
  {| id := place_id place;
     name := p_name place;
     c_latitude := geometry_location_lat place;
     c_longitude := geometry_location_lng place;
     address := Some (addressOf (vicinity place));
     openingHours := None;
     rating := None;
     description := None |}.

Definition toCenters (results : list Place) : list RecyclingCenter :=
  map toCenter results.

Definition noReviews : jsstring := js "No reviews available.".

(** Lines 160-163 and 172: the first review's text, or the placeholder. *)
Definition topReview (d : PlaceDetails) : jsstring :=
  match reviews d with
  | Some (r :: _) =>
      match text r with
      | Some t => or_else t noReviews
      | None => noReviews
      end
  | _ => noReviews
  end.

(** The object spread of lines 168-173. *)
Definition withDetails (d : PlaceDetails) (center : RecyclingCenter)
  : RecyclingCenter :=
  {| id := id center;
     name := name center;
     c_latitude := c_latitude center;
     c_longitude := c_longitude center;
     address := address center;
     openingHours := opening_hours d;
     rating := d_rating d;
     description := Some (topReview d) |}.

(** The updater passed to [setRecyclingCenters] at lines 165-176. *)
Definition mergeDetails (placeId : jsstring) (d : PlaceDetails)
    (prevCenters : list RecyclingCenter) : list RecyclingCenter :=
  map (fun center =>
         if eqb (id center) placeId then withDetails d center else center)
      prevCenters.

(** ** Pure part of the presentation layer *)

Definition ellipsis : jsstring := js "...".

(** Lines 377-381: the text shown in the detail modal. *)
Definition descriptionText (expanded : bool) (description : option jsstring)
  : option jsstring :=
  if expanded then description
  else match description with
       | None => None
       | Some d =>
           if truthy d && (20 <? List.length (split space d))%nat
           then Some (join [space] (slice0 20 (split space d)) ++ ellipsis)
           else Some d
       end.

(** ** Component state *)

(** The [useState] cells of [Map]. *)
Record State := mkState {
  region : option Region;
  recyclingCenters : list RecyclingCenter;
  selectedCenter : option RecyclingCenter;
  modalVisible : bool;
  filterModalVisible : bool;
  searchModalVisible : bool;
  searchKeyword : jsstring;
  currentSearchKeyword : jsstring;
  loading : bool;
  isExpanded : bool;
  prevItemName : jsstring;
}.

(** A call of one of the state setters.  [mergeRecyclingCenters] is the
    functional update of [fetchPlaceDetails]; the others store a value. *)
Inductive Update :=
| setRegion (r : Region)
| setRecyclingCenters (centers : list RecyclingCenter)
| mergeRecyclingCenters (placeId : jsstring) (d : PlaceDetails)
| setSelectedCenter (c : RecyclingCenter)
| setModalVisible (b : bool)
| setFilterModalVisible (b : bool)
| setSearchModalVisible (b : bool)
| setSearchKeyword (k : jsstring)
| setCurrentSearchKeyword (k : jsstring)
| setLoading (b : bool)
| setIsExpanded (b : bool)
| setPrevItemName (k : jsstring).

Definition applyUpdate (u : Update) (s : State) : State :=
  match u with
  | setRegion r =>
      mkState (Some r) (recyclingCenters s) (selectedCenter s) (modalVisible s)
        (filterModalVisible s) (searchModalVisible s) (searchKeyword s)
        (currentSearchKeyword s) (loading s) (isExpanded s) (prevItemName s)
  | setRecyclingCenters cs =>
      mkState (region s) cs (selectedCenter s) (modalVisible s)
        (filterModalVisible s) (searchModalVisible s) (searchKeyword s)
        (currentSearchKeyword s) (loading s) (isExpanded s) (prevItemName s)
  | mergeRecyclingCenters placeId d =>
      mkState (region s) (mergeDetails placeId d (recyclingCenters s))
        (selectedCenter s) (modalVisible s)
        (filterModalVisible s) (searchModalVisible s) (searchKeyword s)
        (currentSearchKeyword s) (loading s) (isExpanded s) (prevItemName s)
  | setSelectedCenter c =>
      mkState (region s) (recyclingCenters s) (Some c) (modalVisible s)
        (filterModalVisible s) (searchModalVisible s) (searchKeyword s)
        (currentSearchKeyword s) (loading s) (isExpanded s) (prevItemName s)
  | setModalVisible b =>
      mkState (region s) (recyclingCenters s) (selectedCenter s) b
        (filterModalVisible s) (searchModalVisible s) (searchKeyword s)
        (currentSearchKeyword s) (loading s) (isExpanded s) (prevItemName s)
  | setFilterModalVisible b =>
      mkState (region s) (recyclingCenters s) (selectedCenter s) (modalVisible s)
        b (searchModalVisible s) (searchKeyword s)
        (currentSearchKeyword s) (loading s) (isExpanded s) (prevItemName s)
  | setSearchModalVisible b =>
      mkState (region s) (recyclingCenters s) (selectedCenter s) (modalVisible s)
        (filterModalVisible s) b (searchKeyword s)
        (currentSearchKeyword s) (loading s) (isExpanded s) (prevItemName s)
  | setSearchKeyword k =>
      mkState (region s) (recyclingCenters s) (selectedCenter s) (modalVisible s)
        (filterModalVisible s) (searchModalVisible s) k
        (currentSearchKeyword s) (loading s) (isExpanded s) (prevItemName s)
  | setCurrentSearchKeyword k =>
      mkState (region s) (recyclingCenters s) (selectedCenter s) (modalVisible s)
        (filterModalVisible s) (searchModalVisible s) (searchKeyword s)
        k (loading s) (isExpanded s) (prevItemName s)
  | setLoading b =>
      mkState (region s) (recyclingCenters s) (selectedCenter s) (modalVisible s)
        (filterModalVisible s) (searchModalVisible s) (searchKeyword s)
        (currentSearchKeyword s) b (isExpanded s) (prevItemName s)
  | setIsExpanded b =>
      mkState (region s) (recyclingCenters s) (selectedCenter s) (modalVisible s)
        (filterModalVisible s) (searchModalVisible s) (searchKeyword s)
        (currentSearchKeyword s) (loading s) b (prevItemName s)
  | setPrevItemName k =>
      mkState (region s) (recyclingCenters s) (selectedCenter s) (modalVisible s)
        (filterModalVisible s) (searchModalVisible s) (searchKeyword s)
        (currentSearchKeyword s) (loading s) (isExpanded s) k
  end.

(** The description the detail modal shows (lines 342 and 377-381): there
    is a modal only when a center is selected. *)
Definition modalDescription (s : State) : option jsstring :=
  match selectedCenter s with
  | Some center => descriptionText (isExpanded s) (description center)
  | None => None
  end.

(** ** What the code does besides setting state *)

(** The [params] of the nearby-search call (lines 119-124). *)
Record NearbyParams := mkNearbyParams {
  location : number * number;
  radius : Z;
  keyword : jsstring;
  key : option jsstring;
}.

(** An [axios.get] whose promise has not settled.  [awaited] records that
    the caller of [fetchRecyclingCenters] is the effect of lines 59-77,
    which resumes after the call and clears [isInitialRender]. *)
Inductive Pending :=
| SearchCall (params : NearbyParams) (awaited : bool)
| DetailsCall (placeId : jsstring) (apiKey : option jsstring).

Inductive Diagnostic :=
| LogPermissionDenied
| LogUpdatingSearch (itemName : jsstring)
| LogSearching (searchKeyword : jsstring)
| ErrorFetchingCenters
| ErrorFetchingDetails.

(** One observable step of the code, in program order. *)
Inductive Action :=
| Set_ (u : Update)
| AxiosGet (p : Pending)
| Console (d : Diagnostic)
| WriteIsInitialRender (b : bool)
| RequestLocation
| OpenMaps (center : RecyclingCenter).

Inductive NearbyResponse :=
| NearbyOk (results : list Place)
| NearbyFailed.

Inductive DetailsResponse :=
| DetailsOk (result : PlaceDetails)
| DetailsFailed.

(** ** The Places client *)

Section Client.

Variable GOOGLE_PLACES_API_KEY : option jsstring.

(** [fetchRecyclingCenters] up to its [await] (lines 105-126). *)
Definition fetchRecyclingCenters (lat lng : number) (keyword : jsstring)
    (awaited : bool) : list Action :=
  let searchKeyword := effectiveQuery keyword in
  [ Set_ (setLoading true);
    Console (LogSearching searchKeyword);
    AxiosGet (SearchCall
                (mkNearbyParams (lat, lng) 80467 searchKeyword
                                GOOGLE_PLACES_API_KEY)
                awaited) ].

(** [fetchPlaceDetails] up to its [await] (lines 147-156). *)
Definition fetchPlaceDetails (placeId : jsstring) : list Action :=
  [ AxiosGet (DetailsCall placeId GOOGLE_PLACES_API_KEY) ].

(** [fetchRecyclingCenters] once the nearby search has settled (lines
    128-142): the [try] body on a response, the [catch] on a failure, the
    [finally] on both. *)
Definition fetchRecyclingCenters_settled (response : NearbyResponse)
  : list Action :=
  match response with
  | NearbyOk results =>
      let centers := toCenters results in
      Set_ (setRecyclingCenters centers)
      :: flat_map (fun center => fetchPlaceDetails (id center)) centers
  | NearbyFailed => [ Console ErrorFetchingCenters ]
  end
  ++ [ Set_ (setLoading false) ].

(** [fetchPlaceDetails] once the details call has settled (lines 158-179). *)
Definition fetchPlaceDetails_settled (placeId : jsstring)
    (response : DetailsResponse) : list Action :=
  match response with
  | DetailsOk placeDetails => [ Set_ (mergeRecyclingCenters placeId placeDetails) ]
  | DetailsFailed => [ Console ErrorFetchingDetails ]
  end.

(** ** Event handlers, over the values of the render they were created in *)

Definition handleMarkerPress (center : RecyclingCenter) : list Action :=
  [ Set_ (setSelectedCenter center);
    Set_ (setModalVisible true);
    Set_ (setIsExpanded false) ].

Definition openMaps (center : RecyclingCenter) : list Action :=
  [ OpenMaps center; Set_ (setModalVisible false) ].

Definition toggleDescription (s : State) : list Action :=
  [ Set_ (setIsExpanded (negb (isExpanded s))) ].

Definition handleSearch (s : State) : list Action :=
  match region s with
  | Some r =>
      Set_ (setCurrentSearchKeyword (searchKeyword s))
      :: fetchRecyclingCenters (latitude r) (longitude r) (searchKeyword s) false
  | None => []
  end
  ++ [ Set_ (setSearchModalVisible false) ].

Definition clearSearch (s : State) : list Action :=
  [ Set_ (setSearchKeyword []);
    Set_ (setCurrentSearchKeyword []);
    Set_ (setPrevItemName []) ]
  ++ match region s with
     | Some r => fetchRecyclingCenters (latitude r) (longitude r) [] false
     | None => []
     end.

Definition handleCloseSearchModal (s : State) : list Action :=
  (if eqb (searchKeyword s) [] then clearSearch s else [])
  ++ [ Set_ (setSearchModalVisible false) ].

(** ** Effects *)

(** Lines 59-77, [useEffect(..., [itemName, region])]. *)
Definition effectItemNameRegion (s : State) (itemName : jsstring)
    (isInitialRender : bool) : list Action :=
  if truthy itemName
     && (negb (eqb itemName (prevItemName s)) || isInitialRender)
  then
    [ Console (LogUpdatingSearch itemName);
      Set_ (setSearchKeyword itemName);
      Set_ (setCurrentSearchKeyword itemName);
      Set_ (setPrevItemName itemName) ]
    ++ match region s with
       | Some r => fetchRecyclingCenters (latitude r) (longitude r) itemName true
       | None => [ WriteIsInitialRender false ]
       end
  else [].

(** Lines 79-100, [useEffect(..., [])]: starts the location request. *)
Definition effectMount : list Action := [ RequestLocation ].

(** The rest of [fetchLocationAndCenters] when permission is denied. *)
Definition locationDenied : list Action := [ Console LogPermissionDenied ].

(** The rest of [fetchLocationAndCenters] once the position is known. *)
Definition locationAcquired (lat lng : number) : list Action :=
  Set_ (setRegion (mkRegion lat lng (1 # 10) (1 # 10)))
  :: fetchRecyclingCenters lat lng [] false.

(** Lines 205-209,
    [useEffect(..., [region, currentSearchKeyword, fetchRecyclingCenters])]. *)
Definition effectSearch (s : State) : list Action :=
  match region s with
  | Some r =>
      if negb (eqb (currentSearchKeyword s) [])
      then fetchRecyclingCenters (latitude r) (longitude r)
                                 (currentSearchKeyword s) false
      else []
  | None => []
  end.

(** Lines 211-217, [useEffect(..., [itemName])]. *)
Definition effectItemName (s : State) (itemName : jsstring) : list Action :=
  if negb (eqb itemName []) && negb (eqb itemName (prevItemName s))
  then [ Set_ (setSearchKeyword itemName);
         Set_ (setCurrentSearchKeyword itemName);
         Set_ (setPrevItemName itemName) ]
  else [].

End Client.

(** ** The mounted screen and its render/commit cycle

    The state updates made by one piece of code (a handler, an effect, the
    continuation of a settled call) are queued and applied in call order
    before the next render; the code itself reads the values of the render
    it was created in.  An effect runs after a render when one of its
    dependencies is not identical to its value at the previous render.
    Strings compare by value; [region] is an object, compared by identity,
    and [regionIdentity] counts the object literals stored in it (a stored
    literal is always a new object).  [fetchRecyclingCenters] is memoised on
    the API key alone, which never changes, so it never counts as a changed
    dependency. *)

Record Screen := mkScreen {
  state : State;
  itemName : jsstring;                 (* route.params.itemName, '' if absent *)
  isInitialRender : bool;              (* isInitialRender.current *)
  regionIdentity : nat;
  GOOGLE_PLACES_API_KEY : option jsstring;
  inflight : list Pending;             (* unsettled axios calls, oldest first *)
}.

Definition withState (scr : Screen) (s : State) : Screen :=
  mkScreen s (itemName scr) (isInitialRender scr) (regionIdentity scr)
           (GOOGLE_PLACES_API_KEY scr) (inflight scr).

Definition performOne (scr : Screen) (a : Action) : Screen :=
  match a with
  | Set_ u =>
      mkScreen (applyUpdate u (state scr)) (itemName scr) (isInitialRender scr)
               (match u with
                | setRegion _ => S (regionIdentity scr)
                | _ => regionIdentity scr
                end)
               (GOOGLE_PLACES_API_KEY scr) (inflight scr)
  | AxiosGet p =>
      mkScreen (state scr) (itemName scr) (isInitialRender scr)
               (regionIdentity scr) (GOOGLE_PLACES_API_KEY scr)
               (inflight scr ++ [p])
  | WriteIsInitialRender b =>
      mkScreen (state scr) (itemName scr) b
               (regionIdentity scr) (GOOGLE_PLACES_API_KEY scr) (inflight scr)
  | Console _ | RequestLocation | OpenMaps _ => scr
  end.

Definition perform (acts : list Action) (scr : Screen) : Screen :=
  fold_left performOne acts scr.

(** The dependency values of one render. *)
Record Deps := mkDeps {
  dep_itemName : jsstring;
  dep_region : nat;
  dep_currentSearchKeyword : jsstring;
}.

Definition depsOf (scr : Screen) : Deps :=
  mkDeps (itemName scr) (regionIdentity scr)
         (currentSearchKeyword (state scr)).

(** The effects that run after the render of [scr], in declaration order,
    when the previous render had dependencies [prev]. *)
Definition effects (prev : Deps) (scr : Screen) : list Action :=
  let now := depsOf scr in
  let itemNameChanged := negb (eqb (dep_itemName prev) (dep_itemName now)) in
  let regionChanged := negb (Nat.eqb (dep_region prev) (dep_region now)) in
  let keywordChanged :=
    negb (eqb (dep_currentSearchKeyword prev) (dep_currentSearchKeyword now)) in
  (if itemNameChanged || regionChanged
   then effectItemNameRegion (GOOGLE_PLACES_API_KEY scr) (state scr)
                             (itemName scr) (isInitialRender scr)
   else [])
  ++ (if regionChanged || keywordChanged
      then effectSearch (GOOGLE_PLACES_API_KEY scr) (state scr)
      else [])
  ++ (if itemNameChanged
      then effectItemName (state scr) (itemName scr)
      else []).

(** Render, run the due effects, apply what they did, and render again
    until a render runs no effect that does anything.  Returns the final
    screen and everything the effects did, in order. *)
Fixpoint commit (fuel : nat) (prev : Deps) (scr : Screen)
  : Screen * list Action :=
  match fuel with
  | O => (scr, [])
  | S fuel' =>
      match effects prev scr with
      | [] => (scr, [])
      | acts =>
          let (scr', more) := commit fuel' (depsOf scr) (perform acts scr) in
          (scr', acts ++ more)
      end
  end.

(** Three rounds always suffice (see [commit_fuel]). *)
Definition commitFuel : nat := 3.

(** Run a piece of code to completion and let the component re-render. *)
Definition run (acts : list Action) (scr : Screen) : Screen * list Action :=
  let (scr', more) := commit commitFuel (depsOf scr) (perform acts scr) in
  (scr', acts ++ more).

Definition removeNth {A} (n : nat) (l : list A) : list A :=
  firstn n l ++ skipn (S n) l.

(** What can happen to a mounted screen. *)
Inductive Event :=
| Navigate (itemName : jsstring)
| PermissionDenied
| PositionAcquired (lat lng : number)
| SearchSettled (n : nat) (response : NearbyResponse)
| DetailsSettled (n : nat) (response : DetailsResponse)
| PressMarker (center : RecyclingCenter)
| PressGetDirections
| PressToggleDescription
| PressCloseDetail
| RequestCloseDetail
| PressFilters
| CloseFilters
| PressSearchIcon
| ChangeText (text : jsstring)
| PressSearch
| PressClear
| CloseSearch.

(** The code an event runs, over the current render's values. *)
Definition handler (e : Event) (scr : Screen) : list Action :=
  let s := state scr in
  let apiKey := GOOGLE_PLACES_API_KEY scr in
  match e with
  | Navigate _ => []
  | PermissionDenied => locationDenied
  | PositionAcquired lat lng => locationAcquired apiKey lat lng
  | SearchSettled n response =>
      match nth_error (inflight scr) n with
      | Some (SearchCall _ awaited) =>
          fetchRecyclingCenters_settled apiKey response
          ++ (if awaited then [ WriteIsInitialRender false ] else [])
      | _ => []
      end
  | DetailsSettled n response =>
      match nth_error (inflight scr) n with
      | Some (DetailsCall placeId _) => fetchPlaceDetails_settled placeId response
      | _ => []
      end
  | PressMarker center => handleMarkerPress center
  | PressGetDirections =>
      match selectedCenter s with
      | Some center => openMaps center
      | None => []
      end
  | PressToggleDescription => toggleDescription s
  | PressCloseDetail => [ Set_ (setModalVisible false) ]
  | RequestCloseDetail => [ Set_ (setModalVisible (negb (modalVisible s))) ]
  | PressFilters => [ Set_ (setFilterModalVisible true) ]
  | CloseFilters => [ Set_ (setFilterModalVisible false) ]
  | PressSearchIcon => [ Set_ (setSearchModalVisible true) ]
  | ChangeText text => [ Set_ (setSearchKeyword text) ]
  | PressSearch => handleSearch apiKey s
  | PressClear => clearSearch apiKey s
  | CloseSearch => handleCloseSearchModal apiKey s
  end.

(** What the environment changes by itself when the event happens: the
    route parameter, and the settled call leaving the in-flight list. *)
Definition arrive (e : Event) (scr : Screen) : Screen :=
  match e with
  | Navigate k =>
      mkScreen (state scr) k (isInitialRender scr) (regionIdentity scr)
               (GOOGLE_PLACES_API_KEY scr) (inflight scr)
  | SearchSettled n _ =>
      match nth_error (inflight scr) n with
      | Some (SearchCall _ _) =>
          mkScreen (state scr) (itemName scr) (isInitialRender scr)
                   (regionIdentity scr) (GOOGLE_PLACES_API_KEY scr)
                   (removeNth n (inflight scr))
      | _ => scr
      end
  | DetailsSettled n _ =>
      match nth_error (inflight scr) n with
      | Some (DetailsCall _ _) =>
          mkScreen (state scr) (itemName scr) (isInitialRender scr)
                   (regionIdentity scr) (GOOGLE_PLACES_API_KEY scr)
                   (removeNth n (inflight scr))
      | _ => scr
      end
  | _ => scr
  end.

(** One event: its handler runs on the current render's values, its
    updates are applied, and the effects whose dependencies differ from
    the render before the event run.  Returns everything done, in order. *)
Definition dispatch (e : Event) (scr : Screen) : Screen * list Action :=
  let acts := handler e scr in
  let (scr', more) :=
    commit commitFuel (depsOf scr) (perform acts (arrive e scr)) in
  (scr', acts ++ more).

(** The first render: initial [useState] values, then every effect once. *)
Definition initialState (itemName : jsstring) : State :=
  mkState None [] None false false false [] [] true false itemName.

Definition mount (apiKey : option jsstring) (itemName : jsstring)
  : Screen * list Action :=
  let scr := mkScreen (initialState itemName) itemName true 0 apiKey [] in
  let acts :=
    effectItemNameRegion apiKey (state scr) itemName (isInitialRender scr)
    ++ effectMount
    ++ effectSearch apiKey (state scr)
    ++ effectItemName (state scr) itemName in
  run acts scr.

(** ** Observations on what was done *)

Definition isNearbySearch (a : Action) : bool :=
  match a with AxiosGet (SearchCall _ _) => true | _ => false end.

Definition isDetailsFetch (a : Action) : bool :=
  match a with AxiosGet (DetailsCall _ _) => true | _ => false end.

Definition isListReplacement (a : Action) : bool :=
  match a with Set_ (setRecyclingCenters _) => true | _ => false end.

(** The nearby-search calls issued, in order. *)
Definition searchesIssued (acts : list Action) : list NearbyParams :=
  flat_map (fun a => match a with
                     | AxiosGet (SearchCall p _) => [p]
                     | _ => []
                     end) acts.

(** The state after applying the updates of [acts] in order. *)
Definition stateAfter (acts : list Action) (s : State) : State :=
  fold_left (fun s a => match a with Set_ u => applyUpdate u s | _ => s end)
            acts s.

(** Marks of the actions that can change an effect dependency. *)
Definition storesRegion (a : Action) : bool :=
  match a with Set_ (setRegion _) => true | _ => false end.

Definition storesKeyword (a : Action) : bool :=
  match a with Set_ (setCurrentSearchKeyword _) => true | _ => false end.

(** A run of events on a mounted screen. *)
Definition runEvents (es : list Event) (scr : Screen) : Screen :=
  fold_left (fun scr e => fst (dispatch e scr)) es scr.

(** ** Further observations *)

(** The words of a description as the specification counts them: the
    non-empty runs of code units between spaces.  The code never computes
    this; it works on the pieces of [split space], which can be empty. *)
Definition spaceSeparatedWords (d : jsstring) : list jsstring :=
  filter truthy (split space d).

Definition isPositionAcquired (e : Event) : bool :=
  match e with PositionAcquired _ _ => true | _ => false end.

Definition isSearchSettled (e : Event) : bool :=
  match e with SearchSettled _ _ => true | _ => false end.

Definition clearsLoading (a : Action) : bool :=
  match a with Set_ (setLoading false) => true | _ => false end.

Definition issuesCall (a : Action) : bool :=
  match a with AxiosGet _ => true | _ => false end.

(** The coordinates a search for region [r] must carry. *)
Definition coordinates (r : Region) : number * number :=
  (latitude r, longitude r).

(** A nearby-search call as every caller is meant to issue it: the fixed
    radius, the configured key, a non-empty keyword and the coordinates of
    the region [r]. *)
Definition searchCallFor (apiKey : option jsstring) (r : option Region)
    (a : Action) : Prop :=
  match a with
  | AxiosGet (SearchCall p _) =>
      radius p = 80467%Z
      /\ key p = apiKey
      /\ keyword p <> []
      /\ Some (location p) = option_map coordinates r
  | _ => True
  end.

(** The screen that waits for a position that never comes. *)
Definition waiting (scr : Screen) : Prop :=
  region (state scr) = None /\ inflight scr = [] /\ loading (state scr) = true.

(** An action that issues no call, stores no region and does not clear the
    loading flag. *)
Definition quiet (a : Action) : bool :=
  negb (issuesCall a || storesRegion a || clearsLoading a).

Definition isNavigate (e : Event) : bool :=
  match e with Navigate _ => true | _ => false end.

(** * Properties *)

(** ** Strings *)

Lemma eqb_eq (a b : jsstring) : eqb a b = true <-> a = b.
Proof.
  unfold eqb. destruct (list_eq_dec N.eq_dec a b); split; congruence.
Qed.

Lemma eqb_neq (a b : jsstring) : eqb a b = false <-> a <> b.
Proof.
  unfold eqb. destruct (list_eq_dec N.eq_dec a b); split; congruence.
Qed.

Lemma eqb_refl (a : jsstring) : eqb a a = true.
Proof. now apply eqb_eq. Qed.

Lemma eqb_nil (a : jsstring) : eqb a [] = negb (truthy a).
Proof. destruct a; reflexivity. Qed.

Lemma truthy_true (s : jsstring) : truthy s = true <-> s <> [].
Proof. destruct s; simpl; split; congruence. Qed.

Lemma trimStart_nil_iff (s : jsstring) :
  trimStart s = [] <-> forallb isWhiteSpace s = true.
Proof.
  induction s as [|c r IH]; simpl.
  - tauto.
  - destruct (isWhiteSpace c); simpl.
    + exact IH.
    + split; discriminate.
Qed.

Lemma forallb_rev {A} (f : A -> bool) (l : list A) :
  forallb f (rev l) = forallb f l.
Proof.
  induction l as [|a l IH]; simpl; [reflexivity|].
  rewrite forallb_app, IH. simpl. rewrite andb_true_r. apply andb_comm.
Qed.

(** What [trimStart] leaves is empty or starts with a visible code unit. *)
Lemma trimStart_head (s : jsstring) :
  match trimStart s with
  | [] => True
  | c :: _ => isWhiteSpace c = false
  end.
Proof.
  induction s as [|c r IH]; simpl; [exact I|].
  destruct (isWhiteSpace c) eqn:E; [exact IH | exact E].
Qed.

Lemma trimStart_blank_tail (s : jsstring) :
  forallb isWhiteSpace (trimStart s) = true -> trimStart s = [].
Proof.
  intros H. pose proof (trimStart_head s) as Hd.
  destruct (trimStart s) as [|c r]; [reflexivity|].
  simpl in H. rewrite Hd in H. discriminate.
Qed.

(** A keyword trims to the empty string exactly when it holds nothing but
    white space. *)
Lemma trim_nil_iff (s : jsstring) :
  trim s = [] <-> forallb isWhiteSpace s = true.
Proof.
  unfold trim, trimEnd. split.
  - intros H. apply (f_equal (@rev _)) in H. rewrite rev_involutive in H.
    simpl in H. apply trimStart_nil_iff in H. rewrite forallb_rev in H.
    apply trimStart_nil_iff. now apply trimStart_blank_tail.
  - intros H. apply trimStart_nil_iff in H. rewrite H. reflexivity.
Qed.

Lemma split_not_nil (sep : code_unit) (s : jsstring) : split sep s <> [].
Proof.
  destruct s as [|c r]; simpl; [discriminate|].
  destruct (N.eqb c sep); [discriminate|].
  destruct (split sep r); discriminate.
Qed.

Lemma join_cons (sep w w' : jsstring) (ws : list jsstring) :
  join sep (w :: w' :: ws) = w ++ sep ++ join sep (w' :: ws).
Proof. reflexivity. Qed.

(** Joining the pieces of a split with the separator gives the string back. *)
Lemma join_split (sep : code_unit) (s : jsstring) :
  join [sep] (split sep s) = s.
Proof.
  induction s as [|c r IH]; simpl; [reflexivity|].
  pose proof (split_not_nil sep r) as Hne.
  destruct (N.eqb c sep) eqn:E.
  - apply N.eqb_eq in E. subst c.
    destruct (split sep r) as [|w ws]; [congruence|].
    rewrite join_cons, IH. reflexivity.
  - destruct (split sep r) as [|w ws]; [congruence|].
    destruct ws as [|w' ws].
    + simpl in *. now rewrite IH.
    + rewrite join_cons in *. rewrite <- IH. reflexivity.
Qed.

(** The first [n] pieces, joined, are what stands before the [n]-th
    separator of the whole. *)
Lemma join_firstn_skipn (sep : jsstring) (n : nat) (l : list jsstring) :
  (0 < n < List.length l)%nat ->
  join sep l = join sep (firstn n l) ++ sep ++ join sep (skipn n l).
Proof.
  revert l. induction n as [|n IH]; intros l [H0 Hn]; [lia|].
  destruct l as [|w l]; simpl in Hn; [lia|].
  destruct l as [|w' l]; simpl in Hn; [lia|].
  destruct n as [|n].
  - reflexivity.
  - rewrite join_cons. rewrite (IH (w' :: l)) by (simpl; lia).
    change (firstn (S (S n)) (w :: w' :: l))
      with (w :: firstn (S n) (w' :: l)).
    change (skipn (S (S n)) (w :: w' :: l)) with (skipn (S n) (w' :: l)).
    destruct (firstn (S n) (w' :: l)) as [|x xs] eqn:E; [discriminate|].
    rewrite join_cons. now rewrite <- !app_assoc.
Qed.

(** ** The render/commit cycle *)

Lemma perform_app (a b : list Action) (scr : Screen) :
  perform (a ++ b) scr = perform b (perform a scr).
Proof. apply fold_left_app. Qed.

Lemma effects_same_deps (scr : Screen) : effects (depsOf scr) scr = [].
Proof.
  unfold effects. cbn [depsOf dep_itemName dep_region dep_currentSearchKeyword].
  now rewrite !eqb_refl, Nat.eqb_refl.
Qed.

(** A render after which no dependency differs runs no effect. *)
Lemma commit_same_deps (fuel : nat) (prev : Deps) (scr : Screen) :
  depsOf scr = prev -> commit fuel prev scr = (scr, []).
Proof.
  intros <-. destruct fuel; simpl; [reflexivity|].
  now rewrite effects_same_deps.
Qed.

(** Issuing the detail fetches only lengthens the in-flight list. *)
Lemma perform_detail_fetches (apiKey : option jsstring)
    (centers : list RecyclingCenter) (scr : Screen) :
  perform (flat_map (fun center => fetchPlaceDetails apiKey (id center)) centers)
          scr
  = mkScreen (state scr) (itemName scr) (isInitialRender scr)
             (regionIdentity scr) (GOOGLE_PLACES_API_KEY scr)
             (inflight scr
              ++ map (fun center => DetailsCall (id center) apiKey) centers).
Proof.
  revert scr. induction centers as [|c cs IH]; intros scr; simpl.
  - rewrite app_nil_r. now destruct scr.
  - unfold perform in IH. rewrite IH. simpl. now rewrite <- app_assoc.
Qed.

Lemma stateAfter_app (a b : list Action) (s : State) :
  stateAfter (a ++ b) s = stateAfter b (stateAfter a s).
Proof. apply fold_left_app. Qed.

Lemma stateAfter_detail_fetches (apiKey : option jsstring)
    (centers : list RecyclingCenter) (s : State) :
  stateAfter
    (flat_map (fun center => fetchPlaceDetails apiKey (id center)) centers) s
  = s.
Proof.
  revert s. induction centers as [|c cs IH]; intros s; [reflexivity|].
  simpl. apply IH.
Qed.

(** The state once a nearby search has settled: the list is replaced on a
    response and kept on a failure, and [loading] is cleared in both. *)
Lemma stateAfter_search_settled (apiKey : option jsstring)
    (response : NearbyResponse) (s : State) :
  stateAfter (fetchRecyclingCenters_settled apiKey response) s
  = applyUpdate (setLoading false)
      match response with
      | NearbyOk results => applyUpdate (setRecyclingCenters (toCenters results)) s
      | NearbyFailed => s
      end.
Proof.
  unfold fetchRecyclingCenters_settled. rewrite stateAfter_app.
  destruct response as [results|]; [|reflexivity].
  change (stateAfter (?a :: ?l) s) with (stateAfter l (stateAfter [a] s)).
  now rewrite stateAfter_detail_fetches.
Qed.

(** The screen a settled nearby search leaves, and everything done. *)
Lemma dispatch_search_settled (scr : Screen) (n : nat)
    (params : NearbyParams) (awaited : bool) (response : NearbyResponse) :
  nth_error (inflight scr) n = Some (SearchCall params awaited) ->
  dispatch (SearchSettled n response) scr
  = (mkScreen
       (stateAfter (fetchRecyclingCenters_settled (GOOGLE_PLACES_API_KEY scr)
                                                  response) (state scr))
       (itemName scr)
       (if awaited then false else isInitialRender scr)
       (regionIdentity scr)
       (GOOGLE_PLACES_API_KEY scr)
       (removeNth n (inflight scr)
        ++ match response with
           | NearbyOk results =>
               map (fun center =>
                      DetailsCall (id center) (GOOGLE_PLACES_API_KEY scr))
                   (toCenters results)
           | NearbyFailed => []
           end),
     fetchRecyclingCenters_settled (GOOGLE_PLACES_API_KEY scr) response
     ++ (if awaited then [ WriteIsInitialRender false ] else [])).
Proof.
  intros Hn. unfold dispatch, handler, arrive. rewrite Hn.
  set (acts := fetchRecyclingCenters_settled _ _ ++ _).
  assert (Hp : perform acts
                 (mkScreen (state scr) (itemName scr) (isInitialRender scr)
                    (regionIdentity scr) (GOOGLE_PLACES_API_KEY scr)
                    (removeNth n (inflight scr)))
               = mkScreen
                   (stateAfter (fetchRecyclingCenters_settled
                                  (GOOGLE_PLACES_API_KEY scr) response)
                               (state scr))
                   (itemName scr)
                   (if awaited then false else isInitialRender scr)
                   (regionIdentity scr)
                   (GOOGLE_PLACES_API_KEY scr)
                   (removeNth n (inflight scr)
                    ++ match response with
                       | NearbyOk results =>
                           map (fun center =>
                                  DetailsCall (id center)
                                              (GOOGLE_PLACES_API_KEY scr))
                               (toCenters results)
                       | NearbyFailed => []
                       end)).
  { subst acts. unfold fetchRecyclingCenters_settled, stateAfter.
    destruct response as [results|].
    - rewrite !perform_app. cbn [app]. unfold perform at 3. cbn [fold_left].
      rewrite perform_detail_fetches. rewrite !fold_left_app.
      cbn [fold_left performOne state itemName isInitialRender regionIdentity
             GOOGLE_PLACES_API_KEY inflight].
      fold (stateAfter
              (flat_map (fun center =>
                           fetchPlaceDetails (GOOGLE_PLACES_API_KEY scr)
                                             (id center)) (toCenters results))
              (applyUpdate (setRecyclingCenters (toCenters results))
                           (state scr))).
      rewrite stateAfter_detail_fetches. destruct awaited; reflexivity.
    - rewrite app_nil_r. destruct awaited; reflexivity. }
  rewrite Hp. rewrite commit_same_deps.
  - now rewrite app_nil_r.
  - unfold depsOf. cbn [state itemName regionIdentity].
    rewrite stateAfter_search_settled. now destruct response.
Qed.

(** The screen a settled details call leaves, and everything done. *)
Lemma dispatch_details_settled (scr : Screen) (n : nat)
    (placeId : jsstring) (apiKey : option jsstring)
    (response : DetailsResponse) :
  nth_error (inflight scr) n = Some (DetailsCall placeId apiKey) ->
  dispatch (DetailsSettled n response) scr
  = (mkScreen
       match response with
       | DetailsOk d => applyUpdate (mergeRecyclingCenters placeId d) (state scr)
       | DetailsFailed => state scr
       end
       (itemName scr) (isInitialRender scr) (regionIdentity scr)
       (GOOGLE_PLACES_API_KEY scr) (removeNth n (inflight scr)),
     fetchPlaceDetails_settled placeId response).
Proof.
  intros Hn. unfold dispatch, handler, arrive. rewrite Hn.
  destruct response as [d|]; cbn [fetchPlaceDetails_settled perform fold_left
                                  performOne state itemName isInitialRender
                                  regionIdentity GOOGLE_PLACES_API_KEY inflight];
    (rewrite commit_same_deps by reflexivity); now rewrite app_nil_r.
Qed.

(** ** Detail merge *)

Lemma mergeDetails_absent (placeId : jsstring) (d : PlaceDetails)
    (centers : list RecyclingCenter) :
  ~ In placeId (map id centers) -> mergeDetails placeId d centers = centers.
Proof.
  unfold mergeDetails. induction centers as [|c cs IH]; intros Hnot;
    [reflexivity|].
  simpl in *. destruct (eqb (id c) placeId) eqn:E.
  - apply eqb_eq in E. tauto.
  - f_equal. apply IH. tauto.
Qed.

Lemma mergeDetails_ids (placeId : jsstring) (d : PlaceDetails)
    (centers : list RecyclingCenter) :
  map id (mergeDetails placeId d centers) = map id centers.
Proof.
  unfold mergeDetails. rewrite map_map. apply map_ext.
  intros c. now destruct (eqb (id c) placeId).
Qed.

Lemma mergeDetails_nth (placeId : jsstring) (d : PlaceDetails)
    (centers : list RecyclingCenter) (i : nat) :
  nth_error (mergeDetails placeId d centers) i
  = option_map (fun center => if eqb (id center) placeId
                              then withDetails d center else center)
               (nth_error centers i).
Proof. unfold mergeDetails. apply nth_error_map. Qed.

(** C3.  When a details response for identifier [placeId] lands, the list
    keeps its length and its identifiers in order; it is unchanged when no
    entry has that identifier; an entry with another identifier is
    unchanged; an entry with that identifier keeps its identifier, name,
    coordinates and address and takes the response's opening hours and
    rating and the first review (or the placeholder) as description. *)
Theorem details_merge_frame (scr : Screen) (n : nat) (placeId : jsstring)
    (apiKey : option jsstring) (d : PlaceDetails) :
  nth_error (inflight scr) n = Some (DetailsCall placeId apiKey) ->
  let before := recyclingCenters (state scr) in
  let after :=
    recyclingCenters (state (fst (dispatch (DetailsSettled n (DetailsOk d)) scr))) in
  (~ In placeId (map id before) -> after = before)
  /\ List.length after = List.length before
  /\ map id after = map id before
  /\ forall i center, nth_error before i = Some center ->
       exists center',
         nth_error after i = Some center'
         /\ id center' = id center
         /\ name center' = name center
         /\ c_latitude center' = c_latitude center
         /\ c_longitude center' = c_longitude center
         /\ address center' = address center
         /\ (id center <> placeId -> center' = center)
         /\ (id center = placeId ->
             openingHours center' = opening_hours d
             /\ rating center' = d_rating d
             /\ description center' = Some (topReview d)).
Proof.
  intros Hn before after. subst before after.
  rewrite (dispatch_details_settled _ _ _ _ _ Hn).
  cbn [fst state applyUpdate recyclingCenters].
  split; [apply mergeDetails_absent|].
  split; [unfold mergeDetails; apply length_map|].
  split; [apply mergeDetails_ids|].
  intros i center Hi. rewrite mergeDetails_nth, Hi. cbn [option_map].
  destruct (eqb (id center) placeId) eqn:E.
  - apply eqb_eq in E. eexists. split; [reflexivity|].
    cbn. repeat split; try reflexivity. congruence.
  - apply eqb_neq in E. exists center. repeat split; try reflexivity; tauto.
Qed.

Lemma details_merge_frame_witness :
  let c1 := mkCenter (js "a") (js "Depot") 1 2 (Some (js "Main St")) None None None in
  let c2 := mkCenter (js "b") (js "Yard") 3 4 (Some (js "Oak Ave")) None None None in
  let d := mkDetails None (Some 5) (Some [mkReview (Some (js "Helpful staff"))]) in
  let scr := mkScreen
               (mkState None [c1; c2] None false false false [] [] false false [])
               [] false 0 None [DetailsCall (js "b") None] in
  map id (recyclingCenters
            (state (fst (dispatch (DetailsSettled 0 (DetailsOk d)) scr))))
  = [js "a"; js "b"].
Proof.
  intros c1 c2 d scr.
  apply (details_merge_frame scr 0 (js "b") None d). reflexivity.
Defined.

(** ** Nearby search: the list built from a response *)

Lemma toCenters_ids (results : list Place) :
  map id (toCenters results) = map place_id results.
Proof. unfold toCenters. rewrite map_map. reflexivity. Qed.

(** The address the code stores for a result. *)
Lemma addressOf_cases (v : option jsstring) :
  addressOf v = match v with
                | Some (c :: s) => c :: s
                | _ => addressPlaceholder
                end.
Proof. destruct v as [[|c s]|]; reflexivity. Qed.

(** C5, as the code has it.  After a successful nearby search with [N]
    results the list has [N] entries, with the response's place identifiers
    in response order, each with the result's name and coordinates; the
    address is the result's vicinity when that is a non-empty string and
    'Address not available' when it is absent or the empty string. *)
Theorem search_success_list (scr : Screen) (n : nat) (params : NearbyParams)
    (awaited : bool) (results : list Place) :
  nth_error (inflight scr) n = Some (SearchCall params awaited) ->
  let centers :=
    recyclingCenters
      (state (fst (dispatch (SearchSettled n (NearbyOk results)) scr))) in
  List.length centers = List.length results
  /\ map id centers = map place_id results
  /\ forall i place, nth_error results i = Some place ->
       exists center,
         nth_error centers i = Some center
         /\ id center = place_id place
         /\ name center = p_name place
         /\ c_latitude center = geometry_location_lat place
         /\ c_longitude center = geometry_location_lng place
         /\ address center
            = Some match vicinity place with
                   | Some (c :: s) => c :: s
                   | _ => js "Address not available"
                   end.
Proof.
  intros Hn centers. subst centers.
  rewrite (dispatch_search_settled _ _ _ _ _ Hn).
  cbn [fst state]. rewrite stateAfter_search_settled.
  cbn [applyUpdate recyclingCenters].
  split; [unfold toCenters; apply length_map|].
  split; [apply toCenters_ids|].
  intros i place Hi. exists (toCenter place).
  split; [unfold toCenters; rewrite nth_error_map, Hi; reflexivity|].
  cbn [toCenter id name c_latitude c_longitude address].
  now rewrite addressOf_cases.
Qed.

Lemma search_success_list_witness :
  let place := mkPlace (js "ChIJ1") (js "Depot") 1 2 (Some (js "Main St")) in
  let scr := mkScreen (initialState []) [] true 0 None
               [SearchCall (mkNearbyParams (1, 2) 80467 defaultKeyword None)
                           false] in
  map id (recyclingCenters
            (state (fst (dispatch (SearchSettled 0 (NearbyOk [place])) scr))))
  = [js "ChIJ1"].
Proof.
  intros place scr.
  apply (search_success_list scr 0
           (mkNearbyParams (1, 2) 80467 defaultKeyword None) false [place]).
  reflexivity.
Defined.

(** C5 as stated fails: a result whose vicinity is present but is the empty
    string gets the placeholder as address, not its vicinity. *)
Lemma search_success_vicinity_counterexample :
  let place := mkPlace (js "ChIJ1") (js "Depot") 1 2 (Some []) in
  let scr := mkScreen (initialState []) [] true 0 None
               [SearchCall (mkNearbyParams (1, 2) 80467 defaultKeyword None)
                           false] in
  let centers :=
    recyclingCenters
      (state (fst (dispatch (SearchSettled 0 (NearbyOk [place])) scr))) in
  vicinity place <> None
  /\ map address centers = [Some (js "Address not available")]
  /\ map address centers <> [vicinity place].
Proof.
  cbv zeta. split; [discriminate|]. split; [reflexivity|].
  vm_compute. discriminate.
Qed.

(** ** Nearby search: the loading flag and the order of what is done *)

(** C6.  Every call of [fetchRecyclingCenters] first sets [loading], before
    the request goes out.  When the nearby search settles, on a response
    or on a failure, [loading] is cleared; on a response this happens while
    every detail call of that response is still unsettled; on a failure the
    center list is the one from before. *)
Theorem loading_follows_search_call (scr : Screen) :
  (forall lat lng kw awaited,
      (exists rest,
          fetchRecyclingCenters (GOOGLE_PLACES_API_KEY scr) lat lng kw awaited
          = Set_ (setLoading true) :: rest)
      /\ loading (stateAfter
                    (fetchRecyclingCenters (GOOGLE_PLACES_API_KEY scr)
                                           lat lng kw awaited)
                    (state scr)) = true)
  /\ forall n params awaited response,
      nth_error (inflight scr) n = Some (SearchCall params awaited) ->
      let scr' := fst (dispatch (SearchSettled n response) scr) in
      loading (state scr') = false
      /\ (response = NearbyFailed ->
          recyclingCenters (state scr') = recyclingCenters (state scr))
      /\ (forall results place,
             response = NearbyOk results -> In place results ->
             In (DetailsCall (place_id place) (GOOGLE_PLACES_API_KEY scr))
                (inflight scr')).
Proof.
  split.
  - intros lat lng kw awaited. split; [eexists; reflexivity | reflexivity].
  - intros n params awaited response Hn scr'. subst scr'.
    rewrite (dispatch_search_settled _ _ _ _ _ Hn).
    cbn [fst state inflight]. rewrite stateAfter_search_settled.
    split; [reflexivity|]. split.
    + intros ->. reflexivity.
    + intros results place -> Hin. apply in_or_app. right.
      unfold toCenters. rewrite map_map. cbn [toCenter id].
      apply (in_map (fun p => DetailsCall (place_id p) _)), Hin.
Qed.

Lemma loading_follows_search_call_witness :
  let scr := mkScreen (initialState []) [] true 0 None
               [SearchCall (mkNearbyParams (1, 2) 80467 defaultKeyword None)
                           false] in
  loading (state (fst (dispatch (SearchSettled 0 NearbyFailed) scr))) = false.
Proof.
  intros scr.
  apply (proj2 (loading_follows_search_call scr) 0%nat
               (mkNearbyParams (1, 2) 80467 defaultKeyword None) false
               NearbyFailed).
  reflexivity.
Defined.

Lemma filter_detail_fetches (apiKey : option jsstring)
    (centers : list RecyclingCenter) :
  filter isDetailsFetch
         (flat_map (fun center => fetchPlaceDetails apiKey (id center)) centers)
  = map (fun center => AxiosGet (DetailsCall (id center) apiKey)) centers.
Proof.
  induction centers as [|c cs IH]; [reflexivity|].
  simpl. now rewrite IH.
Qed.

(** C7.  When a nearby search succeeds, the first thing done is the
    replacement of the list, and the detail fetches of that response, one
    per result in response order, are all issued after it; the calls they
    leave in flight sit on a screen whose list is already the new one, so
    none of them can settle on the old list. *)
Theorem replacement_precedes_details (scr : Screen) (n : nat)
    (params : NearbyParams) (awaited : bool) (results : list Place) :
  nth_error (inflight scr) n = Some (SearchCall params awaited) ->
  let out := dispatch (SearchSettled n (NearbyOk results)) scr in
  (exists rest,
      snd out = Set_ (setRecyclingCenters (toCenters results)) :: rest
      /\ filter isListReplacement rest = []
      /\ filter isDetailsFetch rest
         = map (fun place =>
                  AxiosGet (DetailsCall (place_id place)
                                        (GOOGLE_PLACES_API_KEY scr)))
               results)
  /\ recyclingCenters (state (fst out)) = toCenters results
  /\ inflight (fst out)
     = removeNth n (inflight scr)
       ++ map (fun place =>
                 DetailsCall (place_id place) (GOOGLE_PLACES_API_KEY scr))
              results.
Proof.
  intros Hn out. subst out.
  rewrite (dispatch_search_settled _ _ _ _ _ Hn).
  cbn [fst snd state inflight]. rewrite stateAfter_search_settled.
  cbn [applyUpdate recyclingCenters].
  split; [|split; [reflexivity|]].
  - unfold fetchRecyclingCenters_settled. cbn [app].
    eexists. split; [reflexivity|]. rewrite !filter_app. split.
    + assert (H : forall cs,
                 filter isListReplacement
                   (flat_map (fun center =>
                                fetchPlaceDetails (GOOGLE_PLACES_API_KEY scr)
                                                  (id center)) cs) = []).
      { induction cs as [|c cs IH]; [reflexivity | exact IH]. }
      rewrite H. now destruct awaited.
    + rewrite filter_detail_fetches. unfold toCenters. rewrite map_map.
      cbn [toCenter id].
      destruct awaited; cbn [filter isDetailsFetch app]; now rewrite !app_nil_r.
  - f_equal. unfold toCenters. now rewrite map_map.
Qed.

Lemma replacement_precedes_details_witness :
  let place := mkPlace (js "ChIJ1") (js "Depot") 1 2 None in
  let scr := mkScreen (initialState []) [] true 0 None
               [SearchCall (mkNearbyParams (1, 2) 80467 defaultKeyword None)
                           false] in
  recyclingCenters
    (state (fst (dispatch (SearchSettled 0 (NearbyOk [place])) scr)))
  = toCenters [place].
Proof.
  intros place scr.
  apply (replacement_precedes_details scr 0
           (mkNearbyParams (1, 2) 80467 defaultKeyword None) false [place]).
  reflexivity.
Defined.

(** ** The query sent *)

Lemma effectiveQuery_blank (kw : jsstring) :
  trim kw = [] -> effectiveQuery kw = defaultKeyword.
Proof. unfold effectiveQuery. intros ->. reflexivity. Qed.

Lemma effectiveQuery_keyword (kw : jsstring) :
  trim kw <> [] -> effectiveQuery kw = trim kw ++ js " recycling".
Proof.
  unfold effectiveQuery. intros H. apply truthy_true in H. now rewrite H.
Qed.

(** C4.  The nearby-search call carries exactly one keyword parameter: the
    fixed default string when the keyword trims to the empty string, and
    the trimmed keyword followed by " recycling" otherwise. *)
Theorem search_query (apiKey : option jsstring) (lat lng : number)
    (kw : jsstring) (awaited : bool) :
  let sent :=
    map keyword
        (searchesIssued (fetchRecyclingCenters apiKey lat lng kw awaited)) in
  (trim kw = [] ->
   sent = [js "recycling center|waste management|recyclable materials|recycle center"])
  /\ (forall K, trim kw = K -> K <> [] -> sent = [K ++ js " recycling"]).
Proof.
  cbn [fetchRecyclingCenters searchesIssued flat_map app map keyword].
  split.
  - intros H. now rewrite effectiveQuery_blank.
  - intros K <- HK. now rewrite effectiveQuery_keyword.
Qed.

Lemma search_query_witness :
  map keyword
      (searchesIssued (fetchRecyclingCenters None 1 2 (js "  glass ") false))
  = [js "glass" ++ js " recycling"].
Proof.
  apply (proj2 (search_query None 1 2 (js "  glass ") false) (js "glass")).
  - reflexivity.
  - discriminate.
Defined.

(** A keyword of white space only is sent as the default query. *)
Lemma search_query_blank (apiKey : option jsstring) (lat lng : number)
    (kw : jsstring) (awaited : bool) :
  forallb isWhiteSpace kw = true ->
  map keyword (searchesIssued (fetchRecyclingCenters apiKey lat lng kw awaited))
  = [defaultKeyword].
Proof.
  intros H. apply trim_nil_iff in H.
  cbn [fetchRecyclingCenters searchesIssued flat_map app map keyword].
  now rewrite effectiveQuery_blank.
Qed.

(** ** Events that touch no dependency *)

Lemma dispatch_quiet (e : Event) (scr : Screen) :
  depsOf (perform (handler e scr) (arrive e scr)) = depsOf scr ->
  dispatch e scr = (perform (handler e scr) (arrive e scr), handler e scr).
Proof.
  intros H. unfold dispatch. rewrite commit_same_deps by exact H.
  now rewrite app_nil_r.
Qed.

(** ** Description rendering *)

Lemma split_long_truthy (d : jsstring) :
  (1 < List.length (split space d))%nat -> truthy d = true.
Proof. destruct d; simpl; [lia | reflexivity]. Qed.

(** The collapsed text is a strict prefix of the description: the cut is
    at the twentieth space. *)
Lemma collapsed_prefix (d : jsstring) :
  (20 < List.length (split space d))%nat ->
  exists rest,
    d = join [space] (slice0 20 (split space d)) ++ space :: rest.
Proof.
  intros H. exists (join [space] (skipn 20 (split space d))).
  rewrite <- (join_split space d) at 1.
  apply (join_firstn_skipn [space] 20). lia.
Qed.

Lemma filter_all {A} (f : A -> bool) (l : list A) :
  Forall (fun a => f a = true) l -> filter f l = l.
Proof.
  induction 1 as [|a l Ha Hl IH]; [reflexivity|].
  cbn [filter]. now rewrite Ha, IH.
Qed.

(** C8, as the code has it.  For a selected center whose description has
    more than 20 pieces between single spaces (the pieces of [split(" ")],
    empty where spaces are adjacent, leading or trailing), the modal shows
    the first 20 pieces joined by single spaces followed by "..." while
    collapsed and the whole description while expanded; when no piece is
    empty the pieces are the description's words; one tap of the toggle
    negates the expanded flag and touches nothing else that the modal
    shows. *)
Theorem description_truncation (scr : Screen) (center : RecyclingCenter)
    (d : jsstring) :
  selectedCenter (state scr) = Some center ->
  description center = Some d ->
  (20 < List.length (split space d))%nat ->
  (isExpanded (state scr) = false ->
   modalDescription (state scr)
   = Some (join (js " ") (firstn 20 (split space d)) ++ js "..."))
  /\ (isExpanded (state scr) = true -> modalDescription (state scr) = Some d)
  /\ (Forall (fun piece => piece <> []) (split space d) ->
      spaceSeparatedWords d = split space d)
  /\ let scr' := fst (dispatch PressToggleDescription scr) in
     isExpanded (state scr') = negb (isExpanded (state scr))
     /\ selectedCenter (state scr') = selectedCenter (state scr).
Proof.
  intros Hsel Hd Hlen. unfold modalDescription. rewrite Hsel, Hd.
  split; [|split; [|split]].
  - intros ->. unfold descriptionText.
    rewrite split_long_truthy by lia.
    apply Nat.ltb_lt in Hlen. rewrite Hlen. reflexivity.
  - intros ->. reflexivity.
  - intros Hw. unfold spaceSeparatedWords. apply filter_all.
    apply Forall_forall. intros w Hin. apply truthy_true.
    now apply (proj1 (Forall_forall _ _) Hw).
  - rewrite dispatch_quiet by reflexivity. split; [reflexivity | exact Hsel].
Qed.

Lemma description_truncation_witness :
  let d := js "a b c d e f g h i j k l m n o p q r s t u v" in
  let center := mkCenter (js "x") (js "Depot") 1 2 None None None (Some d) in
  let scr := mkScreen
               (mkState None [center] (Some center) true false false [] []
                        false false [])
               [] false 0 None [] in
  modalDescription (state scr)
  = Some (js "a b c d e f g h i j k l m n o p q r s t...").
Proof.
  intros d center scr.
  apply (proj1 (description_truncation scr center d eq_refl eq_refl
                  ltac:(vm_compute; lia))).
  reflexivity.
Defined.

(** C8 as stated fails: with 22 words and one doubled space the collapsed
    modal shows the first 20 pieces, that is 19 words with the doubled
    space kept, not the first 20 words joined by single spaces. *)
Lemma description_words_counterexample :
  let d := js "a  b c d e f g h i j k l m n o p q r s t u v" in
  List.length (spaceSeparatedWords d) = 22%nat
  /\ descriptionText false (Some d)
     = Some (js "a  b c d e f g h i j k l m n o p q r s...")
  /\ join (js " ") (firstn 20 (spaceSeparatedWords d)) ++ js "..."
     = js "a b c d e f g h i j k l m n o p q r s t..."
  /\ descriptionText false (Some d)
     <> Some (join (js " ") (firstn 20 (spaceSeparatedWords d)) ++ js "...").
Proof.
  cbv zeta. split; [vm_compute; reflexivity|].
  split; [vm_compute; reflexivity|]. split; [vm_compute; reflexivity|].
  vm_compute. discriminate.
Qed.

(** ** The search dialog *)

(** C9.  Closing the search dialog compares the draft keyword with the
    empty string as it is: with a draft that is not empty but trims to the
    empty string, Clear does not run; the only thing done is hiding the
    dialog, no request goes out, and every other part of the screen is as
    before. *)
Theorem close_with_blank_draft (scr : Screen) :
  searchKeyword (state scr) <> [] ->
  trim (searchKeyword (state scr)) = [] ->
  let out := dispatch CloseSearch scr in
  snd out = [ Set_ (setSearchModalVisible false) ]
  /\ state (fst out) = applyUpdate (setSearchModalVisible false) (state scr)
  /\ searchKeyword (state (fst out)) = searchKeyword (state scr)
  /\ currentSearchKeyword (state (fst out)) = currentSearchKeyword (state scr)
  /\ prevItemName (state (fst out)) = prevItemName (state scr)
  /\ recyclingCenters (state (fst out)) = recyclingCenters (state scr)
  /\ searchModalVisible (state (fst out)) = false
  /\ inflight (fst out) = inflight scr.
Proof.
  intros Hne _ out. subst out.
  assert (Hh : handler CloseSearch scr = [ Set_ (setSearchModalVisible false) ]).
  { cbn [handler]. unfold handleCloseSearchModal.
    apply eqb_neq in Hne. now rewrite Hne. }
  rewrite dispatch_quiet by (rewrite Hh; reflexivity).
  rewrite Hh. cbn. repeat split; reflexivity.
Qed.

Lemma close_with_blank_draft_witness :
  let scr := mkScreen
               (mkState (Some (mkRegion 1 2 (1 # 10) (1 # 10))) [] None false
                        false true (js "  ") (js "glass") false false [])
               [] false 1 None [] in
  currentSearchKeyword (state (fst (dispatch CloseSearch scr))) = js "glass".
Proof.
  intros scr.
  apply (close_with_blank_draft scr); [discriminate | reflexivity].
Defined.

(** With an empty draft the same handler does run Clear. *)
Lemma close_with_empty_draft (scr : Screen) :
  searchKeyword (state scr) = [] ->
  handler CloseSearch scr
  = clearSearch (GOOGLE_PLACES_API_KEY scr) (state scr)
    ++ [ Set_ (setSearchModalVisible false) ].
Proof.
  intros H. cbn [handler]. unfold handleCloseSearchModal. now rewrite H.
Qed.

(** C10.  Submitting the search dialog while there is no region only hides
    the dialog: nothing else is done, no request goes out, and the
    committed keyword, the center list and the loading flag are as
    before. *)
Theorem submit_without_region (scr : Screen) :
  region (state scr) = None ->
  let out := dispatch PressSearch scr in
  snd out = [ Set_ (setSearchModalVisible false) ]
  /\ searchesIssued (snd out) = []
  /\ inflight (fst out) = inflight scr
  /\ searchModalVisible (state (fst out)) = false
  /\ currentSearchKeyword (state (fst out)) = currentSearchKeyword (state scr)
  /\ recyclingCenters (state (fst out)) = recyclingCenters (state scr)
  /\ loading (state (fst out)) = loading (state scr).
Proof.
  intros Hr out. subst out.
  assert (Hh : handler PressSearch scr = [ Set_ (setSearchModalVisible false) ]).
  { cbn [handler]. unfold handleSearch. now rewrite Hr. }
  rewrite dispatch_quiet by (rewrite Hh; reflexivity).
  rewrite Hh. cbn. repeat split; reflexivity.
Qed.

Lemma submit_without_region_witness :
  let scr := mkScreen
               (mkState None [] None false false true (js "glass") [] true
                        false [])
               [] true 0 None [] in
  currentSearchKeyword (state (fst (dispatch PressSearch scr))) = [].
Proof.
  intros scr. apply (submit_without_region scr). reflexivity.
Defined.

(** ** Effects and the dependencies *)

Lemma perform_itemName (acts : list Action) (scr : Screen) :
  itemName (perform acts scr) = itemName scr.
Proof.
  revert scr. induction acts as [|a acts IH]; intros scr; [reflexivity|].
  cbn [perform fold_left]. fold (perform acts (performOne scr a)).
  rewrite IH. destruct a; reflexivity.
Qed.

Lemma perform_apiKey (acts : list Action) (scr : Screen) :
  GOOGLE_PLACES_API_KEY (perform acts scr) = GOOGLE_PLACES_API_KEY scr.
Proof.
  revert scr. induction acts as [|a acts IH]; intros scr; [reflexivity|].
  cbn [perform fold_left]. fold (perform acts (performOne scr a)).
  rewrite IH. destruct a; reflexivity.
Qed.

Lemma perform_regionIdentity (acts : list Action) (scr : Screen) :
  existsb storesRegion acts = false ->
  regionIdentity (perform acts scr) = regionIdentity scr.
Proof.
  revert scr. induction acts as [|a acts IH]; intros scr H; [reflexivity|].
  cbn [existsb] in H. apply orb_false_iff in H as [Ha H].
  cbn [perform fold_left]. fold (perform acts (performOne scr a)).
  rewrite IH by exact H.
  destruct a as [u| | | | |]; try reflexivity. now destruct u.
Qed.

Lemma perform_state (acts : list Action) (scr : Screen) :
  state (perform acts scr) = stateAfter acts (state scr).
Proof.
  revert scr. induction acts as [|a acts IH]; intros scr; [reflexivity|].
  cbn [perform fold_left]. fold (perform acts (performOne scr a)).
  rewrite IH. unfold stateAfter. cbn [fold_left]. now destruct a.
Qed.

Lemma stateAfter_keyword (acts : list Action) (s : State) :
  existsb storesKeyword acts = false ->
  currentSearchKeyword (stateAfter acts s) = currentSearchKeyword s.
Proof.
  revert s. induction acts as [|a acts IH]; intros s H; [reflexivity|].
  cbn [existsb] in H. apply orb_false_iff in H as [Ha H].
  unfold stateAfter. cbn [fold_left].
  fold (stateAfter acts (match a with Set_ u => applyUpdate u s | _ => s end)).
  rewrite IH by exact H.
  destruct a as [u| | | | |]; try reflexivity. now destruct u.
Qed.

Lemma effectSearch_stores_nothing (apiKey : option jsstring) (s : State) :
  existsb storesRegion (effectSearch apiKey s) = false
  /\ existsb storesKeyword (effectSearch apiKey s) = false.
Proof.
  unfold effectSearch. destruct (region s); [|split; reflexivity].
  destruct (negb _); split; reflexivity.
Qed.

Lemma effects_store_no_region (prev : Deps) (scr : Screen) :
  existsb storesRegion (effects prev scr) = false.
Proof.
  unfold effects. rewrite !existsb_app.
  repeat match goal with |- context [if ?b then _ else _] => destruct b end;
    cbn [existsb orb];
    unfold effectItemNameRegion, effectItemName;
    rewrite ?(proj1 (effectSearch_stores_nothing _ _));
    repeat match goal with |- context [if ?b then _ else _] => destruct b end;
    try reflexivity;
    destruct (region (state scr)); reflexivity.
Qed.

(** When only the committed keyword can have changed, the one effect that
    may run is the search effect. *)
Lemma effects_keyword_only (prev : Deps) (scr : Screen) :
  dep_itemName prev = itemName scr ->
  dep_region prev = regionIdentity scr ->
  effects prev scr
  = if negb (eqb (dep_currentSearchKeyword prev)
                 (currentSearchKeyword (state scr)))
    then effectSearch (GOOGLE_PLACES_API_KEY scr) (state scr)
    else [].
Proof.
  intros Hi Hr. unfold effects.
  cbn [depsOf dep_itemName dep_region dep_currentSearchKeyword].
  rewrite Hi, Hr, eqb_refl, Nat.eqb_refl. cbn [negb orb app].
  now rewrite app_nil_r.
Qed.

Lemma depsOf_perform (acts : list Action) (scr : Screen) :
  existsb storesRegion acts = false ->
  existsb storesKeyword acts = false ->
  depsOf (perform acts scr) = depsOf scr.
Proof.
  intros Hr Hk. unfold depsOf.
  now rewrite perform_itemName, perform_regionIdentity, perform_state,
    stateAfter_keyword.
Qed.

Lemma commit_S (fuel : nat) (prev : Deps) (scr : Screen) :
  commit (S fuel) prev scr
  = match effects prev scr with
    | [] => (scr, [])
    | acts =>
        let (scr', more) := commit fuel (depsOf scr) (perform acts scr) in
        (scr', acts ++ more)
    end.
Proof. reflexivity. Qed.

(** The rounds after the first: at most the search effect runs, once. *)
Lemma commit_keyword_only (fuel : nat) (prev : Deps) (scr : Screen) :
  dep_itemName prev = itemName scr ->
  dep_region prev = regionIdentity scr ->
  let acts := if negb (eqb (dep_currentSearchKeyword prev)
                           (currentSearchKeyword (state scr)))
              then effectSearch (GOOGLE_PLACES_API_KEY scr) (state scr)
              else [] in
  commit (S (S fuel)) prev scr = (perform acts scr, acts).
Proof.
  intros Hi Hr. cbv zeta. rewrite commit_S.
  rewrite (effects_keyword_only _ _ Hi Hr).
  remember (if negb (eqb (dep_currentSearchKeyword prev)
                         (currentSearchKeyword (state scr)))
            then effectSearch (GOOGLE_PLACES_API_KEY scr) (state scr)
            else []) as acts eqn:Ea.
  assert (Hd : depsOf (perform acts scr) = depsOf scr).
  { subst acts. destruct (negb _); [|reflexivity].
    apply depsOf_perform; apply effectSearch_stores_nothing. }
  destruct acts as [|a acts']; [reflexivity|]. cbv zeta.
  rewrite (commit_same_deps (S fuel) _ _ Hd). now rewrite app_nil_r.
Qed.

(** Three rounds are enough: more fuel changes nothing. *)
Lemma commit_fuel (n : nat) (prev : Deps) (scr : Screen) :
  commit (commitFuel + n) prev scr = commit commitFuel prev scr.
Proof.
  unfold commitFuel. cbn [Nat.add].
  rewrite (commit_S (S (S n))), (commit_S 2).
  destruct (effects prev scr) as [|a acts] eqn:E; [reflexivity|].
  cbv zeta. rewrite <- E.
  rewrite !commit_keyword_only;
    try (now rewrite perform_itemName);
    try (now rewrite perform_regionIdentity
           by apply effects_store_no_region).
  reflexivity.
Qed.

Lemma searchesIssued_app (a b : list Action) :
  searchesIssued (a ++ b) = searchesIssued a ++ searchesIssued b.
Proof. unfold searchesIssued. apply flat_map_app. Qed.

(** What submitting the search dialog does when a region is set: the
    handler commits the draft, fetches once and hides the dialog; the
    search effect then fetches a second time exactly when the committed
    keyword changed to a non-empty one. *)
Lemma dispatch_handleSearch (scr : Screen) (r : Region) :
  region (state scr) = Some r ->
  let D := searchKeyword (state scr) in
  let p := mkNearbyParams (latitude r, longitude r) 80467 (effectiveQuery D)
                          (GOOGLE_PLACES_API_KEY scr) in
  let out := dispatch PressSearch scr in
  currentSearchKeyword (state (fst out)) = D
  /\ searchModalVisible (state (fst out)) = false
  /\ loading (state (fst out)) = true
  /\ searchesIssued (snd out)
     = if negb (eqb (currentSearchKeyword (state scr)) D) && negb (eqb D [])
       then [p; p] else [p].
Proof.
  intros Hr. cbv zeta. unfold dispatch, commitFuel. cbn [arrive].
  set (acts := handler PressSearch scr).
  assert (Ha : acts
               = Set_ (setCurrentSearchKeyword (searchKeyword (state scr)))
                 :: fetchRecyclingCenters (GOOGLE_PLACES_API_KEY scr)
                      (latitude r) (longitude r) (searchKeyword (state scr))
                      false
                 ++ [ Set_ (setSearchModalVisible false) ]).
  { subst acts. cbn [handler]. unfold handleSearch. now rewrite Hr. }
  clearbody acts. subst acts.
  set (acts := _ :: _ ++ _).
  rewrite commit_keyword_only;
    [ | now rewrite perform_itemName
      | now rewrite perform_regionIdentity by reflexivity ].
  rewrite perform_apiKey. rewrite perform_state.
  assert (Hs : stateAfter acts (state scr)
               = applyUpdate (setSearchModalVisible false)
                   (applyUpdate (setLoading true)
                      (applyUpdate
                         (setCurrentSearchKeyword (searchKeyword (state scr)))
                         (state scr)))) by reflexivity.
  rewrite Hs. cbn [depsOf dep_currentSearchKeyword].
  cbn [applyUpdate currentSearchKeyword region searchKeyword].
  unfold effectSearch. cbn [region currentSearchKeyword]. rewrite Hr.
  cbn [fst snd]. rewrite !perform_state, !searchesIssued_app.
  destruct (negb (eqb (currentSearchKeyword (state scr))
                      (searchKeyword (state scr)))).
  - destruct (negb (eqb (searchKeyword (state scr)) [])).
    + rewrite Hs. repeat split; reflexivity.
    + rewrite Hs. repeat split; reflexivity.
  - rewrite Hs. repeat split; reflexivity.
Qed.

Lemma stateAfter_effectSearch (apiKey : option jsstring) (s s' : State) :
  searchKeyword (stateAfter (effectSearch apiKey s) s') = searchKeyword s'
  /\ currentSearchKeyword (stateAfter (effectSearch apiKey s) s')
     = currentSearchKeyword s'
  /\ prevItemName (stateAfter (effectSearch apiKey s) s') = prevItemName s'.
Proof.
  unfold effectSearch. destruct (region s); [|repeat split; reflexivity].
  destruct (negb _); repeat split; reflexivity.
Qed.

Lemma stateAfter_search_round (apiKey : option jsstring) (b : bool)
    (s s' : State) :
  let acts := if b then effectSearch apiKey s else [] in
  searchKeyword (stateAfter acts s') = searchKeyword s'
  /\ currentSearchKeyword (stateAfter acts s') = currentSearchKeyword s'
  /\ prevItemName (stateAfter acts s') = prevItemName s'.
Proof.
  destruct b; [apply stateAfter_effectSearch | repeat split; reflexivity].
Qed.

(** The keyword effects on a non-empty navigation keyword that differs
    from the last-seen one store it in all three cells. *)
Lemma stateAfter_sync (apiKey : option jsstring) (s : State) (k : jsstring)
    (isInitial : bool) :
  k <> [] -> k <> prevItemName s \/ isInitial = true ->
  let acts := effectItemNameRegion apiKey s k isInitial
              ++ effectItemName s k in
  acts <> []
  /\ existsb storesRegion acts = false
  /\ searchKeyword (stateAfter acts s) = k
  /\ currentSearchKeyword (stateAfter acts s) = k
  /\ prevItemName (stateAfter acts s) = k.
Proof.
  intros Hk Hp. cbv zeta. unfold effectItemNameRegion, effectItemName.
  apply truthy_true in Hk. rewrite Hk. rewrite eqb_nil, Hk.
  cbn [negb andb].
  assert (Hc : negb (eqb k (prevItemName s)) || isInitial = true).
  { destruct Hp as [Hp| ->]; [|apply orb_true_r].
    apply eqb_neq in Hp. now rewrite Hp. }
  rewrite Hc.
  destruct (region s); destruct (negb (eqb k (prevItemName s)));
    (split; [discriminate|]); repeat split; reflexivity.
Qed.

(** ** The navigation keyword *)

(** A non-empty navigation keyword, on the first render and on a later
    render where it changed and differs from the last-seen one. *)
Lemma keyword_sync_nonempty (k : jsstring) :
  k <> [] ->
  (forall apiKey,
      let s := state (fst (mount apiKey k)) in
      searchKeyword s = k /\ currentSearchKeyword s = k /\ prevItemName s = k)
  /\ (forall scr,
         k <> itemName scr -> k <> prevItemName (state scr) ->
         let s := state (fst (dispatch (Navigate k) scr)) in
         searchKeyword s = k /\ currentSearchKeyword s = k
         /\ prevItemName s = k).
Proof.
  intros Hk. split.
  - intros apiKey. cbv zeta. unfold mount, run, commitFuel.
    cbn [state isInitialRender].
    assert (Ha : effectItemNameRegion apiKey (initialState k) k true
                 ++ effectMount
                 ++ effectSearch apiKey (initialState k)
                 ++ effectItemName (initialState k) k
                 = [ Console (LogUpdatingSearch k);
                     Set_ (setSearchKeyword k);
                     Set_ (setCurrentSearchKeyword k);
                     Set_ (setPrevItemName k);
                     WriteIsInitialRender false;
                     RequestLocation ]).
    { unfold effectItemNameRegion, effectItemName, effectSearch.
      cbn [initialState region prevItemName].
      apply truthy_true in Hk. rewrite Hk, eqb_refl, orb_true_r.
      cbn [andb negb]. now rewrite andb_false_r. }
    rewrite Ha.
    rewrite commit_keyword_only by reflexivity.
    cbn [fst]. rewrite perform_state.
    match goal with
    | |- context [stateAfter (if ?b then effectSearch ?a ?s0 else []) ?s1] =>
        destruct (stateAfter_search_round a b s0 s1) as (H1 & H2 & H3)
    end.
    cbv zeta in H1, H2, H3. rewrite H1, H2, H3.
    rewrite perform_state. repeat split; reflexivity.
  - intros scr Hi Hp. cbv zeta. unfold dispatch, commitFuel.
    cbn [handler arrive perform fold_left app]. rewrite commit_S.
    set (scrA := mkScreen (state scr) k _ _ _ _).
    assert (He : effects (depsOf scr) scrA
                 = effectItemNameRegion (GOOGLE_PLACES_API_KEY scr) (state scr)
                                        k (isInitialRender scr)
                   ++ effectItemName (state scr) k).
    { unfold effects. subst scrA.
      cbn [depsOf dep_itemName dep_region dep_currentSearchKeyword itemName
             regionIdentity state GOOGLE_PLACES_API_KEY isInitialRender].
      assert (Hn : eqb (itemName scr) k = false)
        by (apply eqb_neq; congruence).
      rewrite Hn, eqb_refl, Nat.eqb_refl. cbn [negb orb app]. reflexivity. }
    rewrite He.
    destruct (stateAfter_sync (GOOGLE_PLACES_API_KEY scr) (state scr) k
                (isInitialRender scr) Hk (or_introl Hp))
      as (Hne & Hreg & H1 & H2 & H3).
    cbv zeta in Hne, Hreg, H1, H2, H3.
    destruct (_ ++ _) as [|a acts] eqn:E; [congruence|]. cbv zeta.
    rewrite commit_keyword_only;
      [ | now rewrite perform_itemName
        | now rewrite perform_regionIdentity by exact Hreg ].
    cbn [fst]. rewrite perform_state.
    match goal with
    | |- context [stateAfter (if ?b then effectSearch ?a ?s0 else []) ?s1] =>
        destruct (stateAfter_search_round a b s0 s1) as (G1 & G2 & G3)
    end.
    cbv zeta in G1, G2, G3. rewrite G1, G2, G3.
    rewrite perform_state. subst scrA. cbn [state]. auto.
Qed.

(** A render with an empty navigation keyword runs no effect that does
    anything: nothing is done and the state is as before. *)
Lemma keyword_sync_empty (scr : Screen) :
  dispatch (Navigate []) scr
  = (mkScreen (state scr) [] (isInitialRender scr) (regionIdentity scr)
              (GOOGLE_PLACES_API_KEY scr) (inflight scr),
     []).
Proof.
  unfold dispatch, commitFuel. cbn [handler arrive perform fold_left app].
  rewrite commit_S.
  set (scrA := mkScreen (state scr) [] _ _ _ _).
  assert (He : effects (depsOf scr) scrA = []).
  { unfold effects, effectItemNameRegion, effectItemName. subst scrA.
    cbn [depsOf dep_itemName dep_region dep_currentSearchKeyword itemName
           regionIdentity state GOOGLE_PLACES_API_KEY isInitialRender
           truthy andb].
    rewrite !eqb_refl, Nat.eqb_refl. cbn [negb orb andb].
    now destruct (negb (eqb (itemName scr) [])). }
  now rewrite He.
Qed.

(** C2, as the code has it.  A non-empty navigation keyword is stored in
    the draft keyword, the committed keyword and the last-seen external
    keyword on the first render, and on a later render when it differs
    from the navigation keyword of the render before and from the
    last-seen external keyword.  An empty navigation keyword is never
    propagated: the render that brings it does nothing and leaves the
    state, the three keyword cells included, as it was. *)
Theorem external_keyword_sync (k : jsstring) :
  (k <> [] ->
   (forall apiKey,
       let s := state (fst (mount apiKey k)) in
       searchKeyword s = k /\ currentSearchKeyword s = k
       /\ prevItemName s = k)
   /\ (forall scr,
          k <> itemName scr -> k <> prevItemName (state scr) ->
          let s := state (fst (dispatch (Navigate k) scr)) in
          searchKeyword s = k /\ currentSearchKeyword s = k
          /\ prevItemName s = k))
  /\ (k = [] ->
      forall scr,
        snd (dispatch (Navigate k) scr) = []
        /\ state (fst (dispatch (Navigate k) scr)) = state scr
        /\ searchKeyword (state (fst (dispatch (Navigate k) scr)))
           = searchKeyword (state scr)
        /\ currentSearchKeyword (state (fst (dispatch (Navigate k) scr)))
           = currentSearchKeyword (state scr)
        /\ prevItemName (state (fst (dispatch (Navigate k) scr)))
           = prevItemName (state scr)).
Proof.
  split.
  - apply keyword_sync_nonempty.
  - intros -> scr. rewrite keyword_sync_empty.
    repeat match goal with |- _ /\ _ => split end; reflexivity.
Qed.

Lemma external_keyword_sync_witness :
  (let scr := fst (mount None []) in
   let s := state (fst (dispatch (Navigate (js "glass")) scr)) in
   searchKeyword s = js "glass" /\ currentSearchKeyword s = js "glass"
   /\ prevItemName s = js "glass")
  /\ (let scr := fst (mount None (js "glass")) in
      snd (dispatch (Navigate []) scr) = []
      /\ prevItemName (state (fst (dispatch (Navigate []) scr))) = js "glass").
Proof.
  split.
  - intros scr.
    apply (proj2 (proj1 (external_keyword_sync (js "glass"))
                    ltac:(discriminate)) scr);
      discriminate.
  - intros scr.
    pose proof (proj2 (external_keyword_sync []) eq_refl scr)
      as (H1 & _ & _ & _ & H5).
    split; [exact H1|]. rewrite H5. reflexivity.
Defined.

(** C2 as stated fails: after "glass" was propagated, an empty navigation
    keyword differs from the last-seen external keyword and yet nothing is
    propagated; all three cells keep "glass". *)
Lemma external_keyword_empty_counterexample :
  let scr := runEvents [ PositionAcquired 1 2 ] (fst (mount None (js "glass"))) in
  let k : jsstring := [] in
  let s := state (fst (dispatch (Navigate k) scr)) in
  k <> prevItemName (state scr)
  /\ searchKeyword s = js "glass"
  /\ currentSearchKeyword s = js "glass"
  /\ prevItemName s = js "glass"
  /\ ~ (searchKeyword s = k /\ currentSearchKeyword s = k /\ prevItemName s = k).
Proof.
  cbv zeta. split; [vm_compute; discriminate|].
  split; [vm_compute; reflexivity|]. split; [vm_compute; reflexivity|].
  split; [vm_compute; reflexivity|].
  intros (H & _). vm_compute in H. discriminate.
Qed.

(** A navigation keyword equal to the one of the render before runs no
    effect, also when Clear has reset the last-seen external keyword. *)
Lemma same_keyword_after_clear :
  let scr := runEvents [ PositionAcquired 1 2; PressClear ]
                       (fst (mount None (js "glass"))) in
  itemName scr = js "glass"
  /\ prevItemName (state scr) = []
  /\ snd (dispatch (Navigate (js "glass")) scr) = []
  /\ state (fst (dispatch (Navigate (js "glass")) scr)) = state scr.
Proof.
  cbv zeta.
  split; [vm_compute; reflexivity|]. split; [vm_compute; reflexivity|].
  split; vm_compute; reflexivity.
Qed.

(** ** Submitting the search dialog *)

(** C1 at a concrete run: the screen is mounted without a navigation
    keyword, the position arrives, the default search settles, the user
    opens the dialog, types "glass" and submits.  The committed keyword
    becomes "glass" and the dialog closes, but two nearby-search calls go
    out, both for the region's coordinates and "glass recycling": one from
    the handler and one from the search effect. *)
Theorem submit_fetches_twice :
  let scr := runEvents [ PositionAcquired 1 2;
                         SearchSettled 0 (NearbyOk []);
                         PressSearchIcon;
                         ChangeText (js "glass") ]
                       (fst (mount None [])) in
  let out := dispatch PressSearch scr in
  let p := mkNearbyParams (1, 2) 80467 (js "glass recycling") None in
  region (state scr) = Some (mkRegion 1 2 (1 # 10) (1 # 10))
  /\ searchKeyword (state scr) = js "glass"
  /\ inflight scr = []
  /\ currentSearchKeyword (state (fst out)) = js "glass"
  /\ searchModalVisible (state (fst out)) = false
  /\ searchesIssued (snd out) = [p; p]
  /\ inflight (fst out) = [SearchCall p false; SearchCall p false].
Proof.
  cbv zeta.
  repeat match goal with |- _ /\ _ => split end; vm_compute; reflexivity.
Qed.

(** ** Invariants of the render/commit cycle *)

(** Whatever holds of a screen and is kept by performing actions of a kind
    that is all the effects produce on such a screen, holds after the
    commit, and everything the commit did is of that kind. *)
Lemma commit_invariant (I : Screen -> Prop) (P : Action -> Prop) :
  (forall prev scr, I scr -> Forall P (effects prev scr)) ->
  (forall acts scr, I scr -> Forall P acts -> I (perform acts scr)) ->
  forall fuel prev scr,
    I scr ->
    I (fst (commit fuel prev scr)) /\ Forall P (snd (commit fuel prev scr)).
Proof.
  intros He Hp. induction fuel as [|fuel IH]; intros prev scr HI.
  - split; [exact HI | constructor].
  - rewrite commit_S. pose proof (He prev scr HI) as Hacts.
    destruct (effects prev scr) as [|a acts]; [split; [exact HI | constructor]|].
    cbv zeta.
    destruct (IH (depsOf scr) (perform (a :: acts) scr)
                 (Hp _ _ HI Hacts)) as [H1 H2].
    destruct (commit fuel (depsOf scr) (perform (a :: acts) scr))
      as [scr' more].
    cbn [fst snd] in *. split; [exact H1|].
    apply Forall_app. now split.
Qed.

Lemma dispatch_invariant (I : Screen -> Prop) (P : Action -> Prop)
    (e : Event) (scr : Screen) :
  (forall prev scr, I scr -> Forall P (effects prev scr)) ->
  (forall acts scr, I scr -> Forall P acts -> I (perform acts scr)) ->
  I (perform (handler e scr) (arrive e scr)) ->
  I (fst (dispatch e scr))
  /\ exists more,
       snd (dispatch e scr) = handler e scr ++ more /\ Forall P more.
Proof.
  intros He Hp HI. unfold dispatch.
  destruct (commit_invariant I P He Hp commitFuel (depsOf scr) _ HI)
    as [H1 H2].
  destruct (commit commitFuel (depsOf scr) _) as [scr' more].
  cbn [fst snd] in *. split; [exact H1|]. now exists more.
Qed.

Lemma existsb_false_Forall {A} (f : A -> bool) (l : list A) :
  existsb f l = false <-> Forall (fun a => f a = false) l.
Proof.
  induction l as [|a l IH]; simpl.
  - split; [constructor | reflexivity].
  - rewrite orb_false_iff, IH. split.
    + intros [Ha Hl]. now constructor.
    + intros H. inversion H; subst. now split.
Qed.

Lemma stateAfter_cons (a : Action) (acts : list Action) (s : State) :
  stateAfter (a :: acts) s
  = stateAfter acts (match a with Set_ u => applyUpdate u s | _ => s end).
Proof. reflexivity. Qed.

Lemma stateAfter_region (acts : list Action) (s : State) :
  existsb storesRegion acts = false ->
  region (stateAfter acts s) = region s.
Proof.
  revert s. induction acts as [|a acts IH]; intros s H; [reflexivity|].
  cbn [existsb] in H. apply orb_false_iff in H as [Ha H].
  rewrite stateAfter_cons, IH by exact H.
  destruct a as [u| | | | |]; try reflexivity. now destruct u.
Qed.

Lemma stateAfter_loading (acts : list Action) (s : State) :
  existsb clearsLoading acts = false ->
  loading s = true ->
  loading (stateAfter acts s) = true.
Proof.
  revert s. induction acts as [|a acts IH]; intros s H Hl; [exact Hl|].
  cbn [existsb] in H. apply orb_false_iff in H as [Ha H].
  rewrite stateAfter_cons. apply IH; [exact H|].
  destruct a as [u| | | | |]; try exact Hl.
  destruct u as [| | | | | | | | |b| |]; try exact Hl.
  destruct b; [reflexivity | discriminate].
Qed.

Lemma perform_inflight (acts : list Action) (scr : Screen) :
  existsb issuesCall acts = false ->
  inflight (perform acts scr) = inflight scr.
Proof.
  revert scr. induction acts as [|a acts IH]; intros scr H; [reflexivity|].
  cbn [existsb] in H. apply orb_false_iff in H as [Ha H].
  cbn [perform fold_left]. fold (perform acts (performOne scr a)).
  rewrite IH by exact H. destruct a; try reflexivity. discriminate.
Qed.

Lemma detail_fetches_store_nothing (apiKey : option jsstring)
    (centers : list RecyclingCenter) :
  existsb storesRegion
    (flat_map (fun center => fetchPlaceDetails apiKey (id center)) centers)
  = false
  /\ existsb clearsLoading
       (flat_map (fun center => fetchPlaceDetails apiKey (id center)) centers)
     = false.
Proof.
  induction centers as [|c cs [IH1 IH2]]; split; try reflexivity; assumption.
Qed.

(** No handler but the one of the acquired position stores a region. *)
Lemma handler_stores_no_region (e : Event) (scr : Screen) :
  isPositionAcquired e = false ->
  existsb storesRegion (handler e scr) = false.
Proof.
  intros He. destruct e; try discriminate; cbn [handler]; try reflexivity.
  - destruct (nth_error (inflight scr) n) as [[p aw|]|]; try reflexivity.
    rewrite existsb_app. unfold fetchRecyclingCenters_settled.
    rewrite existsb_app.
    destruct response as [results|]; cbn [existsb storesRegion orb].
    + rewrite (proj1 (detail_fetches_store_nothing _ _)).
      now destruct aw.
    + now destruct aw.
  - destruct (nth_error (inflight scr) n) as [[|x k]|]; try reflexivity.
    now destruct response.
  - now destruct (selectedCenter (state scr)).
  - unfold handleSearch. now destruct (region (state scr)).
  - unfold clearSearch. now destruct (region (state scr)).
  - unfold handleCloseSearchModal, clearSearch.
    destruct (eqb _ _); [|reflexivity].
    now destruct (region (state scr)).
Qed.

Lemma arrive_state (e : Event) (scr : Screen) :
  state (arrive e scr) = state scr
  /\ regionIdentity (arrive e scr) = regionIdentity scr
  /\ GOOGLE_PLACES_API_KEY (arrive e scr) = GOOGLE_PLACES_API_KEY scr.
Proof.
  destruct e; cbn [arrive]; try (repeat split; reflexivity);
    destruct (nth_error (inflight scr) n) as [[|]|]; repeat split; reflexivity.
Qed.

(** The region is set by the acquired position and by nothing else: every
    other event, with all the effects it triggers, leaves the region and
    its identity as they were. *)
Theorem region_only_from_position (e : Event) (scr : Screen) :
  isPositionAcquired e = false ->
  region (state (fst (dispatch e scr))) = region (state scr)
  /\ regionIdentity (fst (dispatch e scr)) = regionIdentity scr
  /\ existsb storesRegion (snd (dispatch e scr)) = false.
Proof.
  intros He.
  destruct (dispatch_invariant
              (fun scr' => region (state scr') = region (state scr)
                           /\ regionIdentity scr' = regionIdentity scr)
              (fun a => storesRegion a = false) e scr)
    as [[H1 H2] (more & Hm & Hmore)].
  - intros prev scr' _. apply existsb_false_Forall, effects_store_no_region.
  - intros acts scr' [Hr Hi] Hacts. apply existsb_false_Forall in Hacts.
    rewrite perform_state, stateAfter_region, perform_regionIdentity
      by exact Hacts. now split.
  - pose proof (handler_stores_no_region e scr He) as Hh.
    destruct (arrive_state e scr) as (Hs & Hi & _).
    rewrite perform_state, stateAfter_region, perform_regionIdentity
      by exact Hh. now rewrite Hs, Hi.
  - split; [exact H1|]. split; [exact H2|].
    rewrite Hm, existsb_app, (handler_stores_no_region e scr He).
    now apply existsb_false_Forall in Hmore.
Qed.

Lemma region_only_from_position_witness :
  let scr := runEvents [ PositionAcquired 1 2 ] (fst (mount None [])) in
  region (state (fst (dispatch PressClear scr))) = region (state scr).
Proof.
  intros scr. apply (region_only_from_position PressClear scr). reflexivity.
Defined.

(** ** The loading flag *)

Lemma effects_clear_no_loading (prev : Deps) (scr : Screen) :
  existsb clearsLoading (effects prev scr) = false.
Proof.
  unfold effects, effectItemNameRegion, effectSearch, effectItemName.
  rewrite !existsb_app.
  repeat match goal with
         | |- context [if ?b then _ else _] => destruct b
         | |- context [match region ?s with _ => _ end] => destruct (region s)
         end; reflexivity.
Qed.

Lemma handler_clears_no_loading (e : Event) (scr : Screen) :
  isSearchSettled e = false ->
  existsb clearsLoading (handler e scr) = false.
Proof.
  intros He. destruct e; try discriminate; cbn [handler]; try reflexivity.
  - destruct (nth_error (inflight scr) n) as [[|x k]|]; try reflexivity.
    now destruct response.
  - now destruct (selectedCenter (state scr)).
  - unfold handleSearch. now destruct (region (state scr)).
  - unfold clearSearch. now destruct (region (state scr)).
  - unfold handleCloseSearchModal, clearSearch.
    destruct (eqb _ _); [|reflexivity].
    now destruct (region (state scr)).
Qed.

(** Only a settled nearby search takes the loading indicator away: while
    [loading] is set, every other event, with all the effects it triggers,
    leaves it set. *)
Theorem loading_cleared_only_by_search (e : Event) (scr : Screen) :
  isSearchSettled e = false ->
  loading (state scr) = true ->
  loading (state (fst (dispatch e scr))) = true.
Proof.
  intros He Hl.
  destruct (dispatch_invariant
              (fun scr' => loading (state scr') = true)
              (fun a => clearsLoading a = false) e scr) as [H _].
  - intros prev scr' _. apply existsb_false_Forall, effects_clear_no_loading.
  - intros acts scr' Hl' Hacts. apply existsb_false_Forall in Hacts.
    rewrite perform_state. now apply stateAfter_loading.
  - rewrite perform_state. apply stateAfter_loading.
    + now apply handler_clears_no_loading.
    + now rewrite (proj1 (arrive_state e scr)).
  - exact H.
Qed.

Lemma loading_cleared_only_by_search_witness :
  loading (state (fst (dispatch (DetailsSettled 0 DetailsFailed)
                                (fst (mount None (js "glass")))))) = true.
Proof.
  apply loading_cleared_only_by_search; reflexivity.
Defined.

(** ** Without a position *)

Lemma perform_quiet (acts : list Action) (scr : Screen) :
  forallb quiet acts = true -> waiting scr -> waiting (perform acts scr).
Proof.
  intros Hq (Hr & Hi & Hl).
  assert (H : existsb issuesCall acts = false
              /\ existsb storesRegion acts = false
              /\ existsb clearsLoading acts = false).
  { clear -Hq. induction acts as [|a acts IH]; [repeat split; reflexivity|].
    cbn [forallb] in Hq. apply andb_true_iff in Hq as [Ha Hq].
    destruct (IH Hq) as (I1 & I2 & I3). cbn [existsb]. rewrite I1, I2, I3.
    unfold quiet in Ha. apply negb_true_iff in Ha.
    apply orb_false_iff in Ha as [Ha Ha3].
    apply orb_false_iff in Ha as [Ha1 Ha2].
    now rewrite Ha1, Ha2, Ha3. }
  destruct H as (H1 & H2 & H3). unfold waiting.
  rewrite perform_state, stateAfter_region, perform_inflight by assumption.
  repeat split; try assumption. now apply stateAfter_loading.
Qed.

Lemma effects_quiet_without_region (prev : Deps) (scr : Screen) :
  region (state scr) = None -> forallb quiet (effects prev scr) = true.
Proof.
  intros Hr.
  unfold effects, effectItemNameRegion, effectSearch, effectItemName.
  rewrite Hr, !forallb_app.
  repeat match goal with
         | |- context [if ?b then _ else _] => destruct b
         end; reflexivity.
Qed.

Lemma handler_quiet_while_waiting (e : Event) (scr : Screen) :
  isPositionAcquired e = false -> waiting scr ->
  forallb quiet (handler e scr) = true.
Proof.
  intros He (Hr & Hi & _).
  destruct e; try discriminate; cbn [handler]; try reflexivity.
  - rewrite Hi. now destruct n.
  - rewrite Hi. now destruct n.
  - now destruct (selectedCenter (state scr)).
  - unfold handleSearch. now rewrite Hr.
  - unfold clearSearch. now rewrite Hr.
  - unfold handleCloseSearchModal, clearSearch. rewrite Hr.
    now destruct (eqb _ _).
Qed.

Lemma arrive_waiting (e : Event) (scr : Screen) :
  waiting scr -> waiting (arrive e scr).
Proof.
  intros (Hr & Hi & Hl). unfold waiting.
  destruct e; cbn [arrive]; try (repeat split; assumption);
    rewrite Hi; destruct n; repeat split; assumption.
Qed.

Lemma dispatch_waiting (e : Event) (scr : Screen) :
  isPositionAcquired e = false -> waiting scr ->
  waiting (fst (dispatch e scr))
  /\ existsb issuesCall (snd (dispatch e scr)) = false.
Proof.
  intros He Hw.
  destruct (dispatch_invariant waiting (fun a => quiet a = true) e scr)
    as [H (more & Hm & Hmore)].
  - intros prev scr' (Hr & _). apply Forall_forall. apply forallb_forall.
    now apply effects_quiet_without_region.
  - intros acts scr' Hw' Hacts. apply perform_quiet; [|exact Hw'].
    apply forallb_forall. now apply Forall_forall.
  - apply perform_quiet; [now apply handler_quiet_while_waiting|].
    now apply arrive_waiting.
  - split; [exact H|]. rewrite Hm, existsb_app.
    assert (Hq : forall l, forallb quiet l = true ->
                           existsb issuesCall l = false).
    { induction l as [|a l IH]; [reflexivity|]. cbn [forallb existsb].
      intros Hq. apply andb_true_iff in Hq as [Ha Hq]. rewrite (IH Hq).
      unfold quiet in Ha. apply negb_true_iff in Ha.
      apply orb_false_iff in Ha as [Ha _].
      apply orb_false_iff in Ha as [Ha _]. now rewrite Ha. }
    rewrite (Hq _ (handler_quiet_while_waiting e scr He Hw)).
    apply Hq. apply forallb_forall. now apply Forall_forall.
Qed.

Lemma mount_waiting (apiKey : option jsstring) (k : jsstring) :
  waiting (fst (mount apiKey k))
  /\ existsb issuesCall (snd (mount apiKey k)) = false.
Proof.
  unfold mount, run. cbn [state isInitialRender].
  set (scr0 := mkScreen (initialState k) k true 0 apiKey []).
  assert (Hw0 : waiting scr0) by (repeat split).
  set (acts := _ ++ _ ++ _ ++ _).
  assert (Hq : forallb quiet acts = true).
  { subst acts. unfold effectItemNameRegion, effectMount, effectSearch,
      effectItemName. cbn [initialState region prevItemName].
    rewrite !forallb_app.
    repeat match goal with
           | |- context [if ?b then _ else _] => destruct b
           end; reflexivity. }
  destruct (commit_invariant waiting (fun a => quiet a = true)) with
    (fuel := commitFuel) (prev := depsOf scr0) (scr := perform acts scr0)
    as [H1 H2].
  - intros prev scr' (Hr & _). apply Forall_forall. apply forallb_forall.
    now apply effects_quiet_without_region.
  - intros acts' scr' Hw' Hacts. apply perform_quiet; [|exact Hw'].
    apply forallb_forall. now apply Forall_forall.
  - now apply perform_quiet.
  - destruct (commit commitFuel (depsOf scr0) (perform acts scr0))
      as [scr' more]. cbn [fst snd] in *. split; [exact H1|].
    assert (Hq' : forallb quiet (acts ++ more) = true).
    { rewrite forallb_app, Hq. apply forallb_forall.
      now apply Forall_forall. }
    clear -Hq'. induction (acts ++ more) as [|a l IH]; [reflexivity|].
    cbn [forallb existsb] in *. apply andb_true_iff in Hq' as [Ha Hq'].
    rewrite (IH Hq'). unfold quiet in Ha. apply negb_true_iff in Ha.
    apply orb_false_iff in Ha as [Ha _].
    apply orb_false_iff in Ha as [Ha _]. now rewrite Ha.
Qed.

(** When the position never arrives (permission denied, or the location
    service silent), the screen stays as mounted for good: no region, no
    request in flight, the loading indicator on, whatever else happens. *)
Theorem no_position_no_map (apiKey : option jsstring) (k : jsstring)
    (es : list Event) :
  forallb (fun e => negb (isPositionAcquired e)) es = true ->
  let scr := runEvents (PermissionDenied :: es) (fst (mount apiKey k)) in
  region (state scr) = None
  /\ inflight scr = []
  /\ loading (state scr) = true.
Proof.
  intros Hes. cbv zeta.
  assert (H : forall es scr,
             forallb (fun e => negb (isPositionAcquired e)) es = true ->
             waiting scr -> waiting (runEvents es scr)).
  { clear. induction es as [|e es IH]; intros scr Hes Hw; [exact Hw|].
    cbn [forallb] in Hes. apply andb_true_iff in Hes as [He Hes].
    apply negb_true_iff in He. unfold runEvents. cbn [fold_left].
    apply IH; [exact Hes|]. now apply dispatch_waiting. }
  apply (H (PermissionDenied :: es)).
  - cbn [forallb isPositionAcquired negb andb]. exact Hes.
  - apply mount_waiting.
Qed.

Lemma no_position_no_map_witness :
  loading (state (runEvents [ PermissionDenied; Navigate (js "glass");
                              PressSearchIcon; ChangeText (js "cans");
                              PressSearch ]
                            (fst (mount None [])))) = true.
Proof.
  apply (no_position_no_map None []
           [ Navigate (js "glass"); PressSearchIcon; ChangeText (js "cans");
             PressSearch ]).
  reflexivity.
Defined.

(** ** The requests that go out *)

Lemma effectiveQuery_not_empty (kw : jsstring) : effectiveQuery kw <> [].
Proof.
  unfold effectiveQuery. destruct (truthy (trim kw)).
  - intros H. apply app_eq_nil in H as [_ H]. discriminate.
  - discriminate.
Qed.

Lemma fetch_searchCallFor (apiKey : option jsstring) (r : Region)
    (kw : jsstring) (awaited : bool) :
  Forall (searchCallFor apiKey (Some r))
         (fetchRecyclingCenters apiKey (latitude r) (longitude r) kw awaited).
Proof.
  unfold fetchRecyclingCenters. repeat constructor.
  cbn. apply effectiveQuery_not_empty.
Qed.

Lemma detail_fetches_searchCallFor (apiKey K : option jsstring)
    (R : option Region) (centers : list RecyclingCenter) :
  Forall (searchCallFor K R)
         (flat_map (fun center => fetchPlaceDetails apiKey (id center)) centers).
Proof.
  induction centers as [|c cs IH]; [constructor|].
  cbn [flat_map fetchPlaceDetails app]. constructor; [exact I | exact IH].
Qed.

Lemma effects_searchCallFor (prev : Deps) (scr : Screen) :
  Forall (searchCallFor (GOOGLE_PLACES_API_KEY scr) (region (state scr)))
         (effects prev scr).
Proof.
  unfold effects. apply Forall_app. split; [|apply Forall_app; split].
  - destruct (_ || _); [|constructor]. unfold effectItemNameRegion.
    destruct (_ && _); [|constructor].
    apply Forall_app. split; [repeat constructor|].
    destruct (region (state scr)) as [r|]; [|repeat constructor].
    apply fetch_searchCallFor.
  - destruct (_ || _); [|constructor]. unfold effectSearch.
    destruct (region (state scr)) as [r|]; [|constructor].
    destruct (negb _); [|constructor]. apply fetch_searchCallFor.
  - destruct (negb _); [|constructor]. unfold effectItemName.
    destruct (_ && _); repeat constructor.
Qed.

Lemma handler_region (e : Event) (scr : Screen) :
  region (state (perform (handler e scr) (arrive e scr)))
  = match e with
    | PositionAcquired lat lng => Some (mkRegion lat lng (1 # 10) (1 # 10))
    | _ => region (state scr)
    end.
Proof.
  destruct (isPositionAcquired e) eqn:He.
  - destruct e; try discriminate. reflexivity.
  - rewrite perform_state, stateAfter_region
      by now apply handler_stores_no_region.
    rewrite (proj1 (arrive_state e scr)). now destruct e.
Qed.

Lemma handler_searchCallFor (e : Event) (scr : Screen) :
  Forall (searchCallFor (GOOGLE_PLACES_API_KEY scr)
            (region (state (perform (handler e scr) (arrive e scr)))))
         (handler e scr).
Proof.
  rewrite handler_region.
  destruct e; cbn [handler]; try (solve [repeat constructor]).
  - unfold locationAcquired. constructor; [exact I|].
    apply (fetch_searchCallFor _ (mkRegion lat lng (1 # 10) (1 # 10))).
  - destruct (nth_error (inflight scr) n) as [[p aw|]|]; try constructor.
    apply Forall_app. split; [|destruct aw; repeat constructor].
    unfold fetchRecyclingCenters_settled. apply Forall_app.
    split; [|repeat constructor].
    destruct response as [results|]; [|repeat constructor].
    constructor; [exact I|]. apply detail_fetches_searchCallFor.
  - destruct (nth_error (inflight scr) n) as [[|x k]|]; try constructor.
    destruct response; repeat constructor.
  - destruct (selectedCenter (state scr)); repeat constructor.
  - unfold handleSearch. destruct (region (state scr)) as [r|];
      [|repeat constructor].
    apply Forall_app. split; [|repeat constructor].
    constructor; [exact I|]. apply fetch_searchCallFor.
  - unfold clearSearch. destruct (region (state scr)) as [r|];
      [|repeat constructor].
    apply Forall_app. split; [repeat constructor|]. apply fetch_searchCallFor.
  - unfold handleCloseSearchModal, clearSearch.
    destruct (eqb _ _); [|repeat constructor].
    destruct (region (state scr)) as [r|]; [|repeat constructor].
    apply Forall_app. split; [|repeat constructor].
    apply Forall_app. split; [repeat constructor|]. apply fetch_searchCallFor.
Qed.

(** Every nearby-search call that an event causes, from its handler or
    from an effect it triggers, carries the radius 80467, the configured
    API key, a non-empty keyword, and the coordinates of the region the
    screen has once the event is dealt with; without a region no search
    goes out. *)
Theorem searches_well_formed (e : Event) (scr : Screen) :
  Forall (searchCallFor (GOOGLE_PLACES_API_KEY scr)
            (region (state (fst (dispatch e scr)))))
         (snd (dispatch e scr)).
Proof.
  set (K := GOOGLE_PLACES_API_KEY scr).
  set (R := region (state (perform (handler e scr) (arrive e scr)))).
  destruct (dispatch_invariant
              (fun scr' => GOOGLE_PLACES_API_KEY scr' = K
                           /\ region (state scr') = R)
              (fun a => storesRegion a = false /\ searchCallFor K R a)
              e scr) as [[_ HR] (more & Hm & Hmore)].
  - intros prev scr' [HK Hreg]. apply Forall_forall. intros a Ha. split.
    + pose proof (effects_store_no_region prev scr') as H.
      apply existsb_false_Forall in H.
      now apply (proj1 (Forall_forall _ _) H).
    + pose proof (effects_searchCallFor prev scr') as H.
      rewrite HK, Hreg in H. now apply (proj1 (Forall_forall _ _) H).
  - intros acts scr' [HK Hreg] Hacts.
    rewrite perform_apiKey, perform_state. split; [exact HK|].
    rewrite stateAfter_region; [exact Hreg|].
    apply existsb_false_Forall. apply Forall_forall. intros a Ha.
    now apply (proj1 (Forall_forall _ _) Hacts).
  - split; [|reflexivity]. rewrite perform_apiKey.
    apply (proj2 (arrive_state e scr)).
  - rewrite Hm, HR. apply Forall_app. split.
    + apply handler_searchCallFor.
    + apply Forall_forall. intros a Ha.
      now apply (proj1 (Forall_forall _ _) Hmore).
Qed.

(** ** Events that can only change the committed keyword *)

Lemma arrive_itemName (e : Event) (scr : Screen) :
  isNavigate e = false -> itemName (arrive e scr) = itemName scr.
Proof.
  intros He. destruct e; try discriminate; cbn [arrive]; try reflexivity;
    destruct (nth_error (inflight scr) n) as [[|]|]; reflexivity.
Qed.

(** An event that is not a navigation and whose handler stores no region
    is followed by at most one run of the search effect. *)
Lemma dispatch_keyword_only (e : Event) (scr : Screen) :
  isNavigate e = false ->
  existsb storesRegion (handler e scr) = false ->
  let scr1 := perform (handler e scr) (arrive e scr) in
  let acts := if negb (eqb (currentSearchKeyword (state scr))
                           (currentSearchKeyword (state scr1)))
              then effectSearch (GOOGLE_PLACES_API_KEY scr) (state scr1)
              else [] in
  dispatch e scr = (perform acts scr1, handler e scr ++ acts).
Proof.
  intros He Hh. cbv zeta. unfold dispatch, commitFuel.
  rewrite commit_keyword_only.
  - rewrite perform_apiKey, (proj2 (proj2 (arrive_state e scr))).
    reflexivity.
  - rewrite perform_itemName. symmetry. now apply arrive_itemName.
  - rewrite perform_regionIdentity by exact Hh.
    symmetry. apply arrive_state.
Qed.

Lemma effectSearch_empty (apiKey : option jsstring) (s : State) :
  currentSearchKeyword s = [] -> effectSearch apiKey s = [].
Proof.
  intros H. unfold effectSearch. rewrite H. now destruct (region s).
Qed.

Lemma clearSearch_state (apiKey : option jsstring) (s : State) :
  stateAfter (clearSearch apiKey s) s
  = mkState (region s) (recyclingCenters s) (selectedCenter s)
            (modalVisible s) (filterModalVisible s) (searchModalVisible s)
            [] []
            (match region s with Some _ => true | None => loading s end)
            (isExpanded s) [].
Proof.
  unfold clearSearch. destruct (region s) eqn:E; cbn; rewrite ?E; reflexivity.
Qed.

Lemma search_round_after_clear (apiKey : option jsstring) (b : bool)
    (s : State) :
  currentSearchKeyword s = [] ->
  (if b then effectSearch apiKey s else []) = [].
Proof. intros H. rewrite effectSearch_empty by exact H. now destruct b. Qed.

(** After Clear the search effect has nothing to do. *)
Lemma dispatch_clear (scr : Screen) :
  dispatch PressClear scr
  = (perform (clearSearch (GOOGLE_PLACES_API_KEY scr) (state scr)) scr,
     clearSearch (GOOGLE_PLACES_API_KEY scr) (state scr)).
Proof.
  rewrite dispatch_keyword_only
    by (try reflexivity; now apply handler_stores_no_region).
  cbn [handler arrive]. rewrite search_round_after_clear.
  - now rewrite app_nil_r.
  - now rewrite perform_state, clearSearch_state.
Qed.

Lemma dispatch_close_empty (scr : Screen) :
  searchKeyword (state scr) = [] ->
  dispatch CloseSearch scr
  = (perform (clearSearch (GOOGLE_PLACES_API_KEY scr) (state scr)
              ++ [ Set_ (setSearchModalVisible false) ]) scr,
     clearSearch (GOOGLE_PLACES_API_KEY scr) (state scr)
     ++ [ Set_ (setSearchModalVisible false) ]).
Proof.
  intros Hd.
  rewrite dispatch_keyword_only
    by (try reflexivity; now apply handler_stores_no_region).
  cbn [handler arrive]. unfold handleCloseSearchModal.
  rewrite Hd, eqb_refl. rewrite search_round_after_clear.
  - now rewrite app_nil_r.
  - now rewrite perform_state, stateAfter_app, clearSearch_state.
Qed.

(** ** Clear *)

(** Clear empties the draft, the committed and the last-seen external
    keyword and leaves the list and the dialog as they are.  With a region
    it sends exactly one search, for the region's coordinates and the
    default query, and sets [loading]; without a region it sends none.  The
    search effect never adds a second search. *)
Theorem clear_resets_and_fetches_once (scr : Screen) :
  let out := dispatch PressClear scr in
  snd out = clearSearch (GOOGLE_PLACES_API_KEY scr) (state scr)
  /\ searchKeyword (state (fst out)) = []
  /\ currentSearchKeyword (state (fst out)) = []
  /\ prevItemName (state (fst out)) = []
  /\ recyclingCenters (state (fst out)) = recyclingCenters (state scr)
  /\ searchModalVisible (state (fst out)) = searchModalVisible (state scr)
  /\ loading (state (fst out))
     = match region (state scr) with
       | Some _ => true
       | None => loading (state scr)
       end
  /\ searchesIssued (snd out)
     = match region (state scr) with
       | Some r => [ mkNearbyParams (coordinates r) 80467 defaultKeyword
                                    (GOOGLE_PLACES_API_KEY scr) ]
       | None => []
       end.
Proof.
  cbv zeta. rewrite dispatch_clear. cbn [fst snd].
  rewrite perform_state, clearSearch_state.
  repeat match goal with |- _ /\ _ => split end; try reflexivity.
  unfold clearSearch. now destruct (region (state scr)).
Qed.

(** ** Closing the dialog with an empty draft *)

(** Closing the search dialog with an empty draft is Clear followed by
    hiding the dialog: the same actions plus the hiding, the same requests,
    and the state Clear leaves with the dialog hidden. *)
Theorem close_with_empty_draft_is_clear (scr : Screen) :
  searchKeyword (state scr) = [] ->
  let cleared := dispatch PressClear scr in
  let closed := dispatch CloseSearch scr in
  snd closed = snd cleared ++ [ Set_ (setSearchModalVisible false) ]
  /\ state (fst closed)
     = applyUpdate (setSearchModalVisible false) (state (fst cleared))
  /\ inflight (fst closed) = inflight (fst cleared)
  /\ searchesIssued (snd closed) = searchesIssued (snd cleared).
Proof.
  intros Hd. cbv zeta. rewrite dispatch_clear, (dispatch_close_empty _ Hd).
  cbn [fst snd]. rewrite perform_app, searchesIssued_app, app_nil_r.
  repeat match goal with |- _ /\ _ => split end; reflexivity.
Qed.

Lemma close_with_empty_draft_is_clear_witness :
  let scr := runEvents [ PositionAcquired 1 2; PressSearchIcon ]
                       (fst (mount None [])) in
  inflight (fst (dispatch CloseSearch scr))
  = inflight (fst (dispatch PressClear scr)).
Proof.
  intros scr. apply (close_with_empty_draft_is_clear scr). reflexivity.
Defined.

(** ** Start-up *)

(** The screen right after the first render and its effects. *)
Lemma mount_screen (apiKey : option jsstring) (k : jsstring) :
  mount apiKey k
  = (mkScreen (mkState None [] None false false false k k true false k)
              k (negb (truthy k)) 0 apiKey [],
     if truthy k
     then [ Console (LogUpdatingSearch k);
            Set_ (setSearchKeyword k);
            Set_ (setCurrentSearchKeyword k);
            Set_ (setPrevItemName k);
            WriteIsInitialRender false;
            RequestLocation ]
     else [ RequestLocation ]).
Proof.
  unfold mount, run, commitFuel. cbn [state isInitialRender].
  destruct k as [|c k]; [reflexivity|].
  set (kw := c :: k).
  assert (Ha : effectItemNameRegion apiKey (initialState kw) kw true
               ++ effectMount
               ++ effectSearch apiKey (initialState kw)
               ++ effectItemName (initialState kw) kw
               = [ Console (LogUpdatingSearch kw);
                   Set_ (setSearchKeyword kw);
                   Set_ (setCurrentSearchKeyword kw);
                   Set_ (setPrevItemName kw);
                   WriteIsInitialRender false;
                   RequestLocation ]).
  { unfold effectItemNameRegion, effectItemName, effectSearch.
    cbn [initialState region prevItemName].
    rewrite eqb_refl, orb_true_r. subst kw. cbn [truthy andb negb].
    now rewrite andb_false_r. }
  rewrite Ha. rewrite commit_keyword_only by reflexivity.
  cbn -[eqb]. destruct (negb (eqb [] kw)); reflexivity.
Qed.

(** When the position arrives on a freshly mounted screen, the region is
    set to it with the fixed deltas, [loading] is set, and the searches
    that go out are, in some order, the default search from the location
    code and, when there is a navigation keyword, one for that keyword
    from the search effect; the mount itself sends none.  (Which of the
    two goes out first depends on whether the updates of the location
    code are applied together or one by one, which the source does not
    fix.) *)
Theorem startup_searches (apiKey : option jsstring) (k : jsstring)
    (lat lng : number) :
  let out := dispatch (PositionAcquired lat lng) (fst (mount apiKey k)) in
  searchesIssued (snd (mount apiKey k)) = []
  /\ region (state (fst out)) = Some (mkRegion lat lng (1 # 10) (1 # 10))
  /\ loading (state (fst out)) = true
  /\ Permutation
       (searchesIssued (snd out))
       (mkNearbyParams (lat, lng) 80467 defaultKeyword apiKey
        :: (if truthy k
            then [ mkNearbyParams (lat, lng) 80467 (effectiveQuery k) apiKey ]
            else [])).
Proof.
  cbv zeta. rewrite mount_screen. cbn [fst snd].
  split; [now destruct (truthy k)|].
  unfold dispatch, commitFuel. cbn [handler arrive].
  destruct k as [|c k];
    [split; [reflexivity|]; split; [reflexivity|]; apply Permutation_refl|].
  set (kw := c :: k).
  assert (Hk : truthy kw = true) by reflexivity. rewrite Hk.
  cbn [negb]. rewrite commit_S.
  set (scr := mkScreen _ kw false 0%nat apiKey []).
  change (GOOGLE_PLACES_API_KEY scr) with apiKey.
  set (scr1 := perform (locationAcquired apiKey lat lng) scr).
  assert (He : effects (depsOf scr) scr1
               = fetchRecyclingCenters apiKey lat lng kw false).
  { unfold effects, effectItemNameRegion, effectSearch.
    cbn [scr scr1 depsOf dep_itemName dep_region dep_currentSearchKeyword
         perform locationAcquired fetchRecyclingCenters fold_left performOne
         state itemName isInitialRender regionIdentity GOOGLE_PLACES_API_KEY
         applyUpdate region currentSearchKeyword prevItemName latitude
         longitude].
    rewrite !eqb_refl, Hk. cbn [Nat.eqb negb orb andb app].
    rewrite eqb_nil, Hk. cbn [negb]. now rewrite app_nil_r. }
  rewrite He. cbn [fetchRecyclingCenters]. cbv zeta.
  rewrite commit_same_deps by reflexivity.
  cbn [fst snd].
  split; [reflexivity|]. split; [reflexivity|]. apply Permutation_refl.
Qed.

(** ** Typing in the search box *)

(** Typing changes the draft keyword and nothing else: no request goes
    out, no effect runs, and the committed keyword, the list and the
    loading flag are as before. *)
Theorem typing_fetches_nothing (scr : Screen) (draft : jsstring) :
  let out := dispatch (ChangeText draft) scr in
  snd out = [ Set_ (setSearchKeyword draft) ]
  /\ searchesIssued (snd out) = []
  /\ inflight (fst out) = inflight scr
  /\ state (fst out) = applyUpdate (setSearchKeyword draft) (state scr)
  /\ searchKeyword (state (fst out)) = draft
  /\ currentSearchKeyword (state (fst out)) = currentSearchKeyword (state scr).
Proof.
  cbv zeta. rewrite dispatch_quiet by reflexivity.
  repeat match goal with |- _ /\ _ => split end; reflexivity.
Qed.

(** ** Detail responses *)

(** A failed details call changes no state: the list, with whatever
    details its entries already have, stays as it is. *)
Theorem details_failure_keeps_state (scr : Screen) (n : nat)
    (placeId : jsstring) (apiKey : option jsstring) :
  nth_error (inflight scr) n = Some (DetailsCall placeId apiKey) ->
  let out := dispatch (DetailsSettled n DetailsFailed) scr in
  state (fst out) = state scr
  /\ snd out = [ Console ErrorFetchingDetails ].
Proof.
  intros Hn. cbv zeta. rewrite (dispatch_details_settled _ _ _ _ _ Hn).
  split; reflexivity.
Qed.

Lemma details_failure_keeps_state_witness :
  let c := mkCenter (js "a") (js "Depot") 1 2 (Some (js "Main St")) None None
                    None in
  let scr := mkScreen
               (mkState None [c] None false false false [] [] false false [])
               [] false 0 None [DetailsCall (js "a") None] in
  state (fst (dispatch (DetailsSettled 0 DetailsFailed) scr)) = state scr.
Proof.
  intros c scr. apply (details_failure_keeps_state scr 0 (js "a") None).
  reflexivity.
Defined.

Lemma toCenters_in (results : list Place) (center : RecyclingCenter) :
  In center (toCenters results) <->
  exists place, In place results /\ center = toCenter place.
Proof.
  unfold toCenters. rewrite in_map_iff. split; intros (p & H1 & H2).
  - exists p. now split.
  - exists p. now split.
Qed.

(** A details response that lands after a newer search replaced the list:
    when its identifier is not among the new results, the new list is left
    exactly as the search built it; when it is, the entries with that
    identifier take the late response's details. *)
Theorem late_details_response (scr : Screen) (n m : nat)
    (params : NearbyParams) (awaited : bool) (results : list Place)
    (placeId : jsstring) (apiKey : option jsstring) (d : PlaceDetails) :
  nth_error (inflight scr) n = Some (SearchCall params awaited) ->
  let scr1 := fst (dispatch (SearchSettled n (NearbyOk results)) scr) in
  nth_error (inflight scr1) m = Some (DetailsCall placeId apiKey) ->
  let after :=
    recyclingCenters
      (state (fst (dispatch (DetailsSettled m (DetailsOk d)) scr1))) in
  (~ In placeId (map place_id results) -> after = toCenters results)
  /\ (forall place, In place results -> place_id place = placeId ->
        In (withDetails d (toCenter place)) after).
Proof.
  intros Hn scr1 Hm after.
  assert (Hl : recyclingCenters (state scr1) = toCenters results).
  { subst scr1. rewrite (dispatch_search_settled _ _ _ _ _ Hn).
    cbn [fst state]. now rewrite stateAfter_search_settled. }
  subst after. rewrite (dispatch_details_settled _ _ _ _ _ Hm).
  cbn [fst state applyUpdate recyclingCenters]. rewrite Hl. split.
  - intros Hnot. apply mergeDetails_absent. now rewrite toCenters_ids.
  - intros place Hin Hid. unfold mergeDetails. apply in_map_iff.
    exists (toCenter place). split.
    + cbn [toCenter id]. rewrite Hid, eqb_refl. reflexivity.
    + apply toCenters_in. now exists place.
Qed.

Lemma late_details_response_witness :
  let old := mkCenter (js "old") (js "Depot") 1 2 (Some (js "Main St")) None
                      None None in
  let place := mkPlace (js "new") (js "Yard") 3 4 None in
  let scr := mkScreen
               (mkState None [old] None false false false [] [] true false [])
               [] false 0 None
               [ DetailsCall (js "old") None;
                 SearchCall (mkNearbyParams (1, 2) 80467 defaultKeyword None)
                            false ] in
  let scr1 := fst (dispatch (SearchSettled 1 (NearbyOk [place])) scr) in
  recyclingCenters
    (state (fst (dispatch (DetailsSettled 0
                             (DetailsOk (mkDetails None (Some 5) None)))
                          scr1)))
  = toCenters [place].
Proof.
  intros old place scr scr1.
  refine (proj1 (late_details_response scr 1 0
                   (mkNearbyParams (1, 2) 80467 defaultKeyword None) false
                   [place] (js "old") None (mkDetails None (Some 5) None)
                   _ _) _).
  - reflexivity.
  - vm_compute. reflexivity.
  - vm_compute. intros [H|[]]. discriminate.
Defined.

(** ** The detail updater *)

(** Of two responses for the same identifier the later one wins, so a
    repeated response changes nothing. *)
Theorem mergeDetails_last_wins (placeId : jsstring) (d1 d2 : PlaceDetails)
    (centers : list RecyclingCenter) :
  mergeDetails placeId d2 (mergeDetails placeId d1 centers)
  = mergeDetails placeId d2 centers.
Proof.
  unfold mergeDetails. rewrite map_map. apply map_ext. intros c.
  destruct (eqb (id c) placeId) eqn:E; cbn [withDetails id]; rewrite E;
    reflexivity.
Qed.

(** Responses for different identifiers can land in either order. *)
Theorem mergeDetails_commute (x y : jsstring) (dx dy : PlaceDetails)
    (centers : list RecyclingCenter) :
  x <> y ->
  mergeDetails x dx (mergeDetails y dy centers)
  = mergeDetails y dy (mergeDetails x dx centers).
Proof.
  intros Hxy. unfold mergeDetails. rewrite !map_map. apply map_ext. intros c.
  destruct (eqb (id c) x) eqn:Ex, (eqb (id c) y) eqn:Ey;
    cbn [withDetails id]; rewrite ?Ex, ?Ey; try reflexivity.
  apply eqb_eq in Ex, Ey. congruence.
Qed.

Lemma mergeDetails_commute_witness :
  let c1 := mkCenter (js "a") (js "Depot") 1 2 None None None None in
  let c2 := mkCenter (js "b") (js "Yard") 3 4 None None None None in
  let da := mkDetails None (Some 4) None in
  let db := mkDetails None (Some 5) None in
  mergeDetails (js "a") da (mergeDetails (js "b") db [c1; c2])
  = mergeDetails (js "b") db (mergeDetails (js "a") da [c1; c2]).
Proof.
  intros c1 c2 da db. apply mergeDetails_commute. discriminate.
Defined.

Lemma or_else_not_empty (a b : jsstring) : b <> [] -> or_else a b <> [].
Proof. intros Hb. unfold or_else. destruct a; [exact Hb | discriminate]. Qed.

Lemma topReview_not_empty (d : PlaceDetails) : topReview d <> [].
Proof.
  unfold topReview. destruct (reviews d) as [[|r rs]|]; try discriminate.
  destruct (text r) as [t|]; [|discriminate].
  apply or_else_not_empty. discriminate.
Qed.

(** Once a details response has been merged, the entries it touched have
    a description that is not empty: the first review's text when there is
    a first review with a non-empty text, and 'No reviews available.'
    otherwise. *)
Theorem merged_description (placeId : jsstring) (d : PlaceDetails)
    (centers : list RecyclingCenter) (center : RecyclingCenter) :
  In center (mergeDetails placeId d centers) ->
  id center = placeId ->
  exists t,
    description center = Some t
    /\ t <> []
    /\ t = match reviews d with
           | Some (mkReview (Some (c :: s)) :: _) => c :: s
           | _ => js "No reviews available."
           end.
Proof.
  unfold mergeDetails. intros Hin Hid. apply in_map_iff in Hin as (c & Hc & _).
  destruct (eqb (id c) placeId) eqn:E.
  - subst center. exists (topReview d). split; [reflexivity|].
    split; [apply topReview_not_empty|].
    unfold topReview. destruct (reviews d) as [[|[[[|x t]|]] rs]|]; reflexivity.
  - subst center. apply eqb_neq in E. contradiction.
Qed.

Lemma merged_description_witness :
  let c := mkCenter (js "a") (js "Depot") 1 2 None None None None in
  let d := mkDetails None None (Some [mkReview (Some [])]) in
  exists t,
    description (withDetails d c) = Some t
    /\ t <> []
    /\ t = js "No reviews available.".
Proof.
  intros c d.
  apply (merged_description (js "a") d [c] (withDetails d c)).
  - left. reflexivity.
  - reflexivity.
Defined.

(** ** The list a search builds *)

(** Every entry of the list built from a nearby-search response has an
    address that is not empty and no opening hours, rating or description:
    details gathered for an earlier list are gone, also for a place that
    was in it. *)
Theorem fresh_list_has_no_details (scr : Screen) (n : nat)
    (params : NearbyParams) (awaited : bool) (results : list Place)
    (center : RecyclingCenter) :
  nth_error (inflight scr) n = Some (SearchCall params awaited) ->
  In center
     (recyclingCenters
        (state (fst (dispatch (SearchSettled n (NearbyOk results)) scr)))) ->
  openingHours center = None
  /\ rating center = None
  /\ description center = None
  /\ exists a, address center = Some a /\ a <> [].
Proof.
  intros Hn. rewrite (dispatch_search_settled _ _ _ _ _ Hn).
  cbn [fst state]. rewrite stateAfter_search_settled.
  cbn [applyUpdate recyclingCenters]. intros Hin.
  apply toCenters_in in Hin as (place & _ & ->).
  cbn [toCenter openingHours rating description address].
  repeat split. eexists. split; [reflexivity|].
  unfold addressOf. destruct (vicinity place) as [v|]; [|discriminate].
  apply or_else_not_empty. discriminate.
Qed.

Lemma fresh_list_has_no_details_witness :
  let enriched := mkCenter (js "a") (js "Depot") 1 2 (Some (js "Main St"))
                           None (Some 5) (Some (js "Great")) in
  let place := mkPlace (js "a") (js "Depot") 1 2 (Some (js "Main St")) in
  let scr := mkScreen
               (mkState None [enriched] None false false false [] [] true
                        false [])
               [] false 0 None
               [ SearchCall (mkNearbyParams (1, 2) 80467 defaultKeyword None)
                            false ] in
  description (toCenter place) = None.
Proof.
  intros enriched place scr.
  apply (fresh_list_has_no_details scr 0
           (mkNearbyParams (1, 2) 80467 defaultKeyword None) false [place]
           (toCenter place)).
  - reflexivity.
  - left. reflexivity.
Defined.

(** ** The detail modal *)

(** Pressing a marker opens the modal on that center, collapsed.  The
    modal shows the center as it was when pressed: a details response that
    lands afterwards is merged into the list but does not change what the
    open modal shows. *)
Theorem modal_shows_pressed_snapshot (scr : Screen)
    (center : RecyclingCenter) (n : nat) (placeId : jsstring)
    (apiKey : option jsstring) (response : DetailsResponse) :
  nth_error (inflight scr) n = Some (DetailsCall placeId apiKey) ->
  let scr1 := fst (dispatch (PressMarker center) scr) in
  let scr2 := fst (dispatch (DetailsSettled n response) scr1) in
  selectedCenter (state scr1) = Some center
  /\ modalVisible (state scr1) = true
  /\ isExpanded (state scr1) = false
  /\ modalDescription (state scr1) = descriptionText false (description center)
  /\ selectedCenter (state scr2) = Some center
  /\ modalDescription (state scr2) = descriptionText false (description center).
Proof.
  intros Hn scr1 scr2.
  assert (H1 : scr1 = perform (handleMarkerPress center) scr).
  { subst scr1. now rewrite dispatch_quiet by reflexivity. }
  assert (Hn1 : nth_error (inflight scr1) n = Some (DetailsCall placeId apiKey)).
  { rewrite H1. exact Hn. }
  subst scr2. rewrite (dispatch_details_settled _ _ _ _ _ Hn1).
  rewrite H1. destruct response; repeat split; reflexivity.
Qed.

Lemma modal_shows_pressed_snapshot_witness :
  let c := mkCenter (js "a") (js "Depot") 1 2 (Some (js "Main St")) None None
                    None in
  let d := mkDetails None (Some 5) (Some [mkReview (Some (js "Great"))]) in
  let scr := mkScreen
               (mkState None [c] None false false false [] [] false false [])
               [] false 0 None [DetailsCall (js "a") None] in
  let scr1 := fst (dispatch (PressMarker c) scr) in
  modalDescription
    (state (fst (dispatch (DetailsSettled 0 (DetailsOk d)) scr1)))
  = None.
Proof.
  intros c d scr scr1.
  apply (modal_shows_pressed_snapshot scr c 0 (js "a") None (DetailsOk d)).
  reflexivity.
Defined.

(** Two taps on the toggle leave the state as it was. *)
Theorem toggle_twice (scr : Screen) :
  state (fst (dispatch PressToggleDescription
                       (fst (dispatch PressToggleDescription scr))))
  = state scr.
Proof.
  rewrite !dispatch_quiet by reflexivity.
  destruct scr as [s ? ? ? ? ?]. destruct s. cbn.
  now rewrite negb_involutive.
Qed.

(** ** The collapsed description *)

Lemma split_pieces (sep : code_unit) (s : jsstring) :
  Forall (fun w => ~ In sep w) (split sep s).
Proof.
  induction s as [|c r IH]; simpl.
  - constructor; [intros [] | constructor].
  - destruct (N.eqb c sep) eqn:E.
    + constructor; [intros [] | exact IH].
    + apply N.eqb_neq in E.
      destruct (split sep r) as [|w ws]; [repeat constructor; intros [H|[]]; congruence|].
      inversion IH as [|? ? Hw Hws]; subst. constructor; [|exact Hws].
      intros [H|H]; [congruence | contradiction].
Qed.

Lemma Forall_take {A} (P : A -> Prop) (n : nat) (l : list A) :
  Forall P l -> Forall P (firstn n l).
Proof.
  revert l. induction n as [|n IH]; intros l H; [constructor|].
  destruct H as [|x l Hx Hl]; [constructor|].
  cbn [firstn]. constructor; [exact Hx | now apply IH].
Qed.

(** Pieces without the separator, joined: one separator between each two. *)
Lemma count_sep_join (sep : code_unit) (pieces : list jsstring) :
  Forall (fun w => ~ In sep w) pieces ->
  count_occ N.eq_dec (join [sep] pieces) sep = pred (List.length pieces).
Proof.
  unfold jsstring, code_unit in *.
  induction 1 as [|w ws Hw Hws IH]; [reflexivity|].
  assert (H0 : count_occ N.eq_dec w sep = 0%nat)
    by now apply count_occ_not_In.
  destruct ws as [|w' ws]; [exact H0|].
  rewrite join_cons, !count_occ_app. unfold jsstring, code_unit in *.
  rewrite H0, IH. cbn [count_occ app].
  destruct (N.eq_dec sep sep); [reflexivity | congruence].
Qed.

(** A description of more than 20 pieces is shown, collapsed, cut right
    before its twentieth space, with "..." in place of the rest. *)
Theorem collapsed_cut_at_twentieth_space (d : jsstring) :
  (20 < List.length (split space d))%nat ->
  exists shown rest,
    d = shown ++ space :: rest
    /\ count_occ N.eq_dec shown space = 19%nat
    /\ descriptionText false (Some d) = Some (shown ++ js "...").
Proof.
  intros H. exists (join [space] (firstn 20 (split space d))).
  destruct (collapsed_prefix d H) as (rest & Hrest). exists rest.
  split; [exact Hrest|]. split.
  - rewrite count_sep_join by (apply Forall_take, split_pieces).
    rewrite firstn_length_le by lia. reflexivity.
  - unfold descriptionText. rewrite split_long_truthy by lia.
    apply Nat.ltb_lt in H. now rewrite H.
Qed.

Lemma collapsed_cut_at_twentieth_space_witness :
  exists shown rest,
    js "a b c d e f g h i j k l m n o p q r s t u v" = shown ++ space :: rest
    /\ count_occ N.eq_dec shown space = 19%nat
    /\ descriptionText false
         (Some (js "a b c d e f g h i j k l m n o p q r s t u v"))
       = Some (shown ++ js "...").
Proof.
  apply (collapsed_cut_at_twentieth_space
           (js "a b c d e f g h i j k l m n o p q r s t u v")).
  vm_compute. lia.
Defined.



(** ** White space around the keyword *)

Lemma trimStart_app (s t : jsstring) :
  trimStart (s ++ t)
  = if forallb isWhiteSpace s then trimStart t else trimStart s ++ t.
Proof.
  induction s as [|c r IH]; [reflexivity|].
  cbn [app trimStart forallb]. destruct (isWhiteSpace c); [exact IH|].
  reflexivity.
Qed.

Lemma trimEnd_blank (s ws : jsstring) :
  forallb isWhiteSpace ws = true -> trimEnd (s ++ ws) = trimEnd s.
Proof.
  intros H. unfold trimEnd. rewrite rev_app_distr, trimStart_app.
  now rewrite forallb_rev, H.
Qed.

(** White space before and after a keyword does not count. *)
Lemma trim_padding (before s after : jsstring) :
  forallb isWhiteSpace before = true ->
  forallb isWhiteSpace after = true ->
  trim (before ++ s ++ after) = trim s.
Proof.
  intros Hb Ha. unfold trim. rewrite trimStart_app, Hb, trimStart_app.
  destruct (forallb isWhiteSpace s) eqn:Es.
  - apply trimStart_nil_iff in Es, Ha. now rewrite Es, Ha.
  - now apply trimEnd_blank.
Qed.

(** The query sent does not depend on white space typed before or after
    the keyword. *)
Theorem query_ignores_padding (before kw after : jsstring) :
  forallb isWhiteSpace before = true ->
  forallb isWhiteSpace after = true ->
  effectiveQuery (before ++ kw ++ after) = effectiveQuery kw.
Proof.
  intros Hb Ha. unfold effectiveQuery. now rewrite trim_padding.
Qed.

Lemma query_ignores_padding_witness :
  effectiveQuery (js "  " ++ js "glass" ++ js " ") = effectiveQuery (js "glass").
Proof.
  apply query_ignores_padding; reflexivity.
Defined.

(** The default query goes out for the keywords made of white space only,
    and for no other keyword. *)
Theorem default_query_iff_blank (kw : jsstring) :
  effectiveQuery kw = defaultKeyword <-> forallb isWhiteSpace kw = true.
Proof.
  rewrite <- trim_nil_iff. split.
  - unfold effectiveQuery. destruct (trim kw) as [|c t] eqn:E; [reflexivity|].
    cbn [truthy]. intros H. apply (f_equal (@rev _)) in H.
    rewrite rev_app_distr in H. vm_compute in H. discriminate.
  - apply effectiveQuery_blank.
Qed.

(** ** A navigation keyword while a region is set *)

(** A non-empty navigation keyword that differs from the one of the
    render before and from the last-seen external keyword, arriving while a
    region is set, is searched for at the region's coordinates: once by
    the keyword effect, and once more by the search effect when it differs
    from the committed keyword. *)
Theorem navigation_keyword_searches (scr : Screen) (r : Region)
    (k : jsstring) :
  region (state scr) = Some r ->
  k <> [] -> k <> itemName scr -> k <> prevItemName (state scr) ->
  let p := mkNearbyParams (coordinates r) 80467 (effectiveQuery k)
                          (GOOGLE_PLACES_API_KEY scr) in
  searchesIssued (snd (dispatch (Navigate k) scr))
  = if eqb (currentSearchKeyword (state scr)) k then [p] else [p; p].
Proof.
  intros Hr Hk Hi Hp. cbv zeta. unfold dispatch, commitFuel.
  cbn [handler arrive perform fold_left app]. rewrite commit_S.
  set (scrA := mkScreen (state scr) k _ _ _ _).
  set (first := [ Console (LogUpdatingSearch k);
                  Set_ (setSearchKeyword k);
                  Set_ (setCurrentSearchKeyword k);
                  Set_ (setPrevItemName k) ]
                ++ fetchRecyclingCenters (GOOGLE_PLACES_API_KEY scr)
                     (latitude r) (longitude r) k true
                ++ [ Set_ (setSearchKeyword k);
                     Set_ (setCurrentSearchKeyword k);
                     Set_ (setPrevItemName k) ]).
  assert (He : effects (depsOf scr) scrA = first).
  { unfold effects, effectItemNameRegion, effectItemName. subst scrA first.
    cbn [depsOf dep_itemName dep_region dep_currentSearchKeyword itemName
           regionIdentity state GOOGLE_PLACES_API_KEY isInitialRender].
    assert (Hn : eqb (itemName scr) k = false) by (apply eqb_neq; congruence).
    assert (Hq : eqb k (prevItemName (state scr)) = false)
      by now apply eqb_neq.
    apply truthy_true in Hk.
    rewrite Hn, Hq, eqb_refl, Nat.eqb_refl, Hk, Hr, eqb_nil, Hk.
    cbn [negb orb andb app]. reflexivity. }
  rewrite He. subst first. cbn [app]. cbv zeta.
  set (first := Console (LogUpdatingSearch k) :: _).
  rewrite commit_keyword_only;
    [ | now rewrite perform_itemName
      | now rewrite perform_regionIdentity by reflexivity ].
  cbn [snd]. rewrite perform_apiKey, perform_state.
  assert (Hs : currentSearchKeyword (stateAfter first (state scrA)) = k
               /\ region (stateAfter first (state scrA)) = Some r).
  { subst first scrA. cbn. now rewrite Hr. }
  destruct Hs as [Hc Hreg].
  unfold effectSearch. rewrite Hc, Hreg.
  cbn [depsOf dep_currentSearchKeyword scrA state GOOGLE_PLACES_API_KEY].
  rewrite eqb_nil. apply truthy_true in Hk. rewrite Hk. cbn [negb].
  destruct (eqb (currentSearchKeyword (state scr)) k); subst first;
    reflexivity.
Qed.

Lemma navigation_keyword_searches_witness :
  let scr := runEvents [ PositionAcquired 1 2; SearchSettled 0 (NearbyOk []) ]
                       (fst (mount None [])) in
  let p := mkNearbyParams (1, 2) 80467 (js "glass recycling") None in
  searchesIssued (snd (dispatch (Navigate (js "glass")) scr)) = [p; p].
Proof.
  intros scr p.
  refine (navigation_keyword_searches scr (mkRegion 1 2 (1 # 10) (1 # 10))
            (js "glass") _ _ _ _).
  - vm_compute. reflexivity.
  - discriminate.
  - vm_compute. discriminate.
  - vm_compute. discriminate.
Defined.

Lemma dispatch_handleSearch_witness :
  let scr := runEvents [ PositionAcquired 1 2;
                         SearchSettled 0 (NearbyOk []);
                         PressSearchIcon;
                         ChangeText [] ]
                       (fst (mount None [])) in
  currentSearchKeyword (state (fst (dispatch PressSearch scr))) = []
  /\ searchModalVisible (state (fst (dispatch PressSearch scr))) = false
  /\ loading (state (fst (dispatch PressSearch scr))) = true
  /\ searchesIssued (snd (dispatch PressSearch scr))
     = [ mkNearbyParams (1, 2) 80467 defaultKeyword None ].
Proof.
  intros scr.
  refine (dispatch_handleSearch scr (mkRegion 1 2 (1 # 10) (1 # 10)) _).
  vm_compute. reflexivity.
Defined.
